(** * go-filecoin: the mining worker, the fake-chain helpers and the address codec

    A shallow embedding of [mining/worker.go], of the block-construction
    helpers of [chain/testing.go] and of the [address] package, together
    with the properties the specification states about them.

    Conventions of the embedding:
    - a Go [uint64] is an [N] with the wrap-around at [2^64] written out;
      a Go [int] is a [Z];
    - a [[]byte] is a [list byte]; a Go [string] holding text is a [string];
    - a Go [(T, error)] result is a pair whose second component is an
      [option] ([None] is [nil]), so that [err != nil] tests read as in Go;
    - a function that may panic returns a [Go.Res];
    - a pointer that may be [nil] is an [option]. *)

From Stdlib Require Import String Ascii.
From Stdlib Require Import Strings.Byte.
From Stdlib Require Import ZArith NArith Bool Lia PeanoNat List.
Import ListNotations.

Set Implicit Arguments.

(* ================================================================= *)
(** ** Go runtime notions *)

Module Go.

(** Outcome of a call that either yields a value or panics. *)
Inductive Res (A : Type) : Type :=
| Val (a : A)
| Panic (msg : string).
Arguments Val {A} a.
Arguments Panic {A} msg.

(** The [error] interface, observed through [err.Error()]. *)
Definition error := string.

Definition uint64_modulus : N := 2 ^ 64.

(** Arithmetic on [uint64] wraps around. *)
Definition add64 (a b : N) : N := ((a + b) mod uint64_modulus)%N.

(** The conversion [uint64(i)] of a Go [int]. *)
Definition uint64_of_int (i : Z) : N := Z.to_N (i mod 2 ^ 64).

(** The builtin [copy(dst, src)]: the first [min (len dst) (len src)]
    elements of [dst] are overwritten; the value is [dst] afterwards. *)
Definition copy {A : Type} (dst src : list A) : list A :=
  firstn (length dst) src ++ skipn (length src) dst.

(** The zero value of a [[n]byte] array. *)
Definition zeroBytes (n : nat) : list byte := repeat x00 n.

End Go.

Import Go.

(* ================================================================= *)
(** ** package context *)

Module context.

(** A [context.Context] is observed through its cancellation.  Time is
    counted in abstract ticks from the entry of the call under study; a
    context cancelled at tick [c] reports an error and has [Done()] ready
    from tick [c] on, for ever. *)
Record Context : Type := mkContext { cancelledAt : option nat }.

Definition Background : Context := mkContext None.

(** [ctx.Err()] evaluated at tick [now]. *)
Definition ctxErr (ctx : Context) (now : nat) : option error :=
  match cancelledAt ctx with
  | Some c => if (c <=? now)%nat then Some "context canceled"%string else None
  | None => None
  end.

End context.

(* ================================================================= *)
(** ** package address: the representation (the codec comes further down) *)

(** [type Address struct{ str string }]: the string holds raw bytes, the
    protocol byte first, then the payload. *)
Record Address : Type := mkAddress { str : list byte }.

(** [var Undef = Address{}] *)
Definition Undef : Address := mkAddress [].

(* ================================================================= *)
(** ** package types: the part of [types.Block] the modelled code touches *)

Module types.

Definition Cid := list byte.
Definition SortedCidSet := list Cid.

(** The fields of [types.Block] that [MkFakeChildCore] sets, and the miner
    address it leaves at its zero value.  A [*cid.Cid] may be [nil]. *)
Record Block : Type := mkBlock {
  Miner : Address;
  Parents : SortedCidSet;
  Height : N;
  ParentWeightNum : N;
  ParentWeightDenom : N;
  Nonce : N;
  StateRoot : option Cid
}.

(** [types.Signer]: the one method the worker calls. *)
Record Signer : Type := mkSigner {
  SignBytes : list byte -> Address -> list byte * option error
}.

End types.

(* ================================================================= *)
(** ** package consensus: tipsets *)

Module consensus.

(** [consensus.TipSet] is a map from block CID to block; the embedding
    keeps its listing [ToSlice()], whose length is [len(ts)]. *)
Definition TipSet := list types.Block.

Definition ToSlice (ts : TipSet) : list types.Block := ts.

Definition ErrEmptyTipSet : error := "empty tipset"%string.

(** Modelled from the spec: [TipSet.Height] is declared in package
    consensus, outside the sources at hand.  The spec gives
    "Height(TipSet) -> integer: the shared height of members" for a
    non-empty collection; the call site shows the [(uint64, error)]
    result, the error being for the tipset without members. *)
Definition Height (ts : TipSet) : N * option error :=
  match ToSlice ts with
  | [] => (0%N, Some ErrEmptyTipSet)
  | b :: _ => (types.Height b, None)
  end.

End consensus.

(* ================================================================= *)
(** ** package mining: worker.go *)

Module mining.

Import types consensus.

Import context.

(** *** Channels and [select] *)

(** What a receiver will see on a channel nobody else reads. *)
Inductive RecvChan (A : Type) : Type :=
| Delivers (at_tick : nat) (v : A)   (* a send becomes ready at [at_tick] *)
| Closed (at_tick : nat)             (* closed at [at_tick], nothing sent *)
| Silent.                            (* neither a send nor a close, ever *)
Arguments Delivers {A} at_tick v.
Arguments Closed {A} at_tick.
Arguments Silent {A}.

(** The case a two-way [select] on [ctx.Done()] and a receive commits to. *)
Inductive SelectCase (A : Type) : Type :=
| CaseDone                            (* case <-ctx.Done() *)
| CaseRecv (v : A) (more : bool)      (* case v, more := <-ch *)
| NoCase.                             (* neither is ever ready *)
Arguments CaseDone {A}.
Arguments CaseRecv {A} v more.
Arguments NoCase {A}.

(** A receive yields the value sent and [true], or the zero value and
    [false] on a closed channel. *)
Definition recvReady {A : Type} (zero : A) (ch : RecvChan A)
  : option (nat * (A * bool)) :=
  match ch with
  | Delivers t v => Some (t, (v, true))
  | Closed t => Some (t, (zero, false))
  | Silent => None
  end.

(** [select { case <-ctx.Done(): ...; case v, more := <-ch: ... }].
    The case that is ready first is taken; when both are ready at the
    same tick the runtime picks one, [pickDone] being its choice. *)
Definition selectDoneOrRecv {A : Type} (zero : A) (ctx : Context)
    (ch : RecvChan A) (pickDone : bool) : SelectCase A :=
  match cancelledAt ctx, recvReady zero ch with
  | None, None => NoCase
  | Some _, None => CaseDone
  | None, Some (_, (v, more)) => CaseRecv v more
  | Some c, Some (t, (v, more)) =>
      if (c <? t)%nat then CaseDone
      else if (t <? c)%nat then CaseRecv v more
      else if pickDone then CaseDone else CaseRecv v more
  end.

(** *** Outputs *)

(** [type Output struct { NewBlock *types.Block; Err error }] *)
Record Output : Type := mkOutput {
  NewBlock : option Block;
  Err : option error
}.

Definition NewOutput (b : option Block) (e : option error) : Output :=
  {| NewBlock := b; Err := e |}.

(** *** The worker and its collaborators *)

(** [type DoSomeWorkFunc func()]: observed through the time it takes;
    [None] is a function that never returns.  (A function that panics
    in its goroutine would take the whole process down, whatever [Mine]
    is doing; that is left out.) *)
Definition DoSomeWorkFunc := option nat.

Section Worker.

(** Types and functions of other packages ([state], [core],
    [consensus], [hamt], [blockstore], [proofs]) and the method
    [Generate] of the worker, which lives in another file. *)
Variables StateTree MessagePool MessageApplier PowerTableView
          Blockstore CborIpldStore : Type.

(** [len(proofs.PoStProof{})] and [len(proofs.PoStChallengeSeed{})]. *)
Variables PoStProofLen PoStChallengeSeedLen : nat.

Definition PoStProof := list byte.
Definition PoStChallengeSeed := list byte.

Definition GetStateTree :=
  Context -> TipSet -> option StateTree * option error.

(** [type GetWeight func(context.Context, consensus.TipSet) (uint64, error)] *)
Definition GetWeight := Context -> TipSet -> N * option error.

Record DefaultWorker : Type := mkDefaultWorker {
  createPoSTFunc : DoSomeWorkFunc;
  minerAddr : Address;
  signer : Signer;
  getStateTree : GetStateTree;
  getWeight : GetWeight;
  messagePool : MessagePool;
  processor : MessageApplier;
  powerTable : PowerTableView;
  blockstore : Blockstore;
  cstore : CborIpldStore;
  blockTime : nat
}.

Variable CreateChallengeSeed :
  TipSet -> N -> PoStChallengeSeed * option error.
Variable IsWinningTicket :
  Context -> Blockstore -> PowerTableView -> option StateTree ->
  list byte -> Address -> bool * option error.
Variable Generate :
  DefaultWorker -> Context -> TipSet -> list byte -> PoStProof -> N ->
  option Block * option error.

Definition NewDefaultWorkerWithDeps
    (messagePool : MessagePool) (getStateTree : GetStateTree)
    (getWeight : GetWeight) (processor : MessageApplier)
    (powerTable : PowerTableView) (bs : Blockstore)
    (cst : CborIpldStore) (miner : Address) (signer : Signer)
    (bt : nat) (createPoSTFunc : DoSomeWorkFunc) : DefaultWorker :=
  {| getStateTree := getStateTree;
     getWeight := getWeight;
     messagePool := messagePool;
     processor := processor;
     powerTable := powerTable;
     blockstore := bs;
     cstore := cst;
     createPoSTFunc := createPoSTFunc;
     minerAddr := miner;
     signer := signer;
     blockTime := bt |}.

(** [fakeCreatePoST] sleeps for the block time and returns. *)
Definition fakeCreatePoST (w : DefaultWorker) : DoSomeWorkFunc :=
  Some (blockTime w).

(** The assignment [w.createPoSTFunc = f]. *)
Definition setCreatePoSTFunc (w : DefaultWorker) (f : DoSomeWorkFunc)
  : DefaultWorker :=
  {| createPoSTFunc := f;
     minerAddr := minerAddr w;
     signer := signer w;
     getStateTree := getStateTree w;
     getWeight := getWeight w;
     messagePool := messagePool w;
     processor := processor w;
     powerTable := powerTable w;
     blockstore := blockstore w;
     cstore := cstore w;
     blockTime := blockTime w |}.

(** [NewDefaultWorker]: the dependency passed first is [func() {}]. *)
Definition NewDefaultWorker
    (messagePool : MessagePool) (getStateTree : GetStateTree)
    (getWeight : GetWeight) (processor : MessageApplier)
    (powerTable : PowerTableView) (bs : Blockstore)
    (cst : CborIpldStore) (miner : Address) (signer : Signer)
    (bt : nat) : DefaultWorker :=
  let w := NewDefaultWorkerWithDeps messagePool getStateTree getWeight
             processor powerTable bs cst miner signer bt (Some 0%nat) in
  setCreatePoSTFunc w (fakeCreatePoST w).

(** *** createProof and CreateTicket *)

(** [createProof] makes a channel and starts a goroutine that runs
    [createPoST] and then sends the challenge seed; the channel is never
    closed.  [now] is the tick of the call. *)
Definition createProof (challengeSeed : PoStChallengeSeed)
    (createPoST : DoSomeWorkFunc) (now : nat)
  : RecvChan PoStChallengeSeed :=
  match createPoST with
  | Some d => Delivers (now + d) challengeSeed
  | None => Silent
  end.

(** [CreateTicket]: [buf := append(proof[:])] and [h := buf] are the
    proof bytes themselves. *)
Definition CreateTicket (proof : PoStProof) (minerAddr : Address)
    (signer : Signer) : Res (list byte) :=
  let buf := proof in
  let h := buf in
  let '(ticket, err) := SignBytes signer h minerAddr in
  match err with
  | Some e => Panic ("SignBytes error in CreateTicket: " ++ e)%string
  | None => Val ticket
  end.

(** *** Mine *)

(** The [return] statement a call of [Mine] left through. *)
Inductive ExitPoint : Type :=
| ExitEmptyTipSet      (* line 153 *)
| ExitStateTreeError   (* line 161 *)
| ExitCtxErr           (* line 166 *)
| ExitSeedError        (* line 172 *)
| ExitCtxDone          (* line 181 *)
| ExitProofChanClosed  (* line 185 *)
| ExitWinCheckError    (* line 197 *)
| ExitWinner           (* line 207 *)
| ExitNotWinner.       (* line 210 *)

Inductive Outcome : Type :=
| Returned (b : bool) (exit : ExitPoint)
| Panicked (msg : string)
| Blocked.             (* waits in the select for ever *)

(** What a call of [Mine] did: the values sent on [outCh], oldest
    first, and how the call ended.  A send on [outCh] is taken to
    find its receiver.  Logging has no part in either: the calls of
    [log], among them [log.Debugf] with [next.Cid().String()] on the
    winner branch (also when [Generate] failed and [next] is nil), are
    taken to return. *)
Record MineRun : Type := mkRun {
  outCh : list Output;
  outcome : Outcome
}.

(** Ticks of the two places where [Mine] looks at its context. *)
Definition tickCtxErr : nat := 1.
Definition tickSelect : nat := 2.

(** Lines 176-211: from the [select] to the end, given the case the
    [select] commits to. *)
Definition mineSelected (w : DefaultWorker) (ctx : Context)
    (base : TipSet) (nullBlkCount : Z) (st : option StateTree)
    (sel : SelectCase PoStChallengeSeed) : MineRun :=
  let proof0 : PoStProof := zeroBytes PoStProofLen in
  match sel with
  | NoCase => mkRun [] Blocked
  | CaseDone => mkRun [] (Returned false ExitCtxDone)
  | CaseRecv prChRead more =>
      if negb more then mkRun [] (Returned false ExitProofChanClosed)
      else
        let proof := copy proof0 prChRead in
        match CreateTicket proof (minerAddr w) (signer w) with
        | Panic msg => mkRun [] (Panicked msg)
        | Val ticket =>
            let '(weHaveAWinner, err) :=
              IsWinningTicket ctx (blockstore w) (powerTable w) st
                              ticket (minerAddr w) in
            match err with
            | Some e =>
                mkRun [ {| NewBlock := None; Err := Some e |} ]
                      (Returned false ExitWinCheckError)
            | None =>
                if weHaveAWinner then
                  let '(next, err) :=
                    Generate w ctx base ticket proof
                             (uint64_of_int nullBlkCount) in
                  mkRun [ NewOutput next err ] (Returned true ExitWinner)
                else mkRun [] (Returned false ExitNotWinner)
            end
        end
  end.

(** [Mine].  [pickDone] is the runtime's choice in the [select] when
    the cancellation and the proof are ready at the same tick. *)
Definition Mine (w : DefaultWorker) (ctx : Context) (base : TipSet)
    (nullBlkCount : Z) (pickDone : bool) : MineRun :=
  if (length base =? 0)%nat then
    mkRun [ {| NewBlock := None;
               Err := Some "bad input tipset with no blocks sent to Mine()"%string |} ]
          (Returned false ExitEmptyTipSet)
  else
    let '(st, err) := getStateTree w ctx base in
    match err with
    | Some e =>
        mkRun [ {| NewBlock := None; Err := Some e |} ]
              (Returned false ExitStateTreeError)
    | None =>
        match ctxErr ctx tickCtxErr with
        | Some _ => mkRun [] (Returned false ExitCtxErr)
        | None =>
            let '(challenge, err) :=
              CreateChallengeSeed base (uint64_of_int nullBlkCount) in
            match err with
            | Some e =>
                mkRun [ {| NewBlock := None; Err := Some e |} ]
                      (Returned false ExitSeedError)
            | None =>
                let prCh :=
                  createProof challenge (createPoSTFunc w) tickSelect in
                mineSelected w ctx base nullBlkCount st
                  (selectDoneOrRecv (zeroBytes PoStChallengeSeedLen)
                                    ctx prCh pickDone)
            end
        end
    end.

End Worker.

End mining.

(* ================================================================= *)
(** ** package chain: testing.go, the construction of fake children *)

Module chain.

Import context types consensus.

Section FakeChild.

Variable StateTree : Type.

(** [TipSet.ToSortedCidSet], of package consensus. *)
Variable ToSortedCidSet : TipSet -> SortedCidSet.

(** [consensus.Protocol]: the method the helpers call. *)
Record Protocol : Type := mkProtocol {
  Weight : Context -> TipSet -> option StateTree -> N * N * option error
}.

Definition MkFakeChildCore (parent : TipSet) (genCid : option Cid)
    (stateRoot : option Cid) (nonce nullBlockCount : N)
    (wFun : TipSet -> N * N * option error)
  : Res (option Block * option error) :=
  let '(nW, dW, err) := wFun parent in
  match err with
  | Some e => Val (None, Some e)
  | None =>
      let '(pHeight, err) := Height parent in
      match err with
      | Some e => Val (None, Some e)
      | None =>
          let height := add64 (add64 pHeight 1) nullBlockCount in
          let pIDs := ToSortedCidSet parent in
          let build (stateRoot : option Cid) :=
            Val (Some {| Miner := Undef;
                         Parents := pIDs;
                         types.Height := height;
                         ParentWeightNum := nW;
                         ParentWeightDenom := dW;
                         Nonce := nonce;
                         StateRoot := stateRoot |},
                 None) in
          match stateRoot with
          | None =>
              match ToSlice parent with
              | [] => Panic "index out of range"
              | b0 :: _ => build (StateRoot b0)
              end
          | Some _ => build stateRoot
          end
      end
  end.

Definition MkFakeChildWithCon (parent : TipSet) (genCid : option Cid)
    (stateRoot : option Cid) (nonce nullBlockCount : N)
    (con : Protocol) : Res (option Block * option error) :=
  let wFun := fun ts : TipSet => Weight con Background parent None in
  MkFakeChildCore parent genCid stateRoot nonce nullBlockCount wFun.

End FakeChild.

End chain.

(* ================================================================= *)
(** ** Decimal text of unsigned integers ([%d] and [strconv.ParseUint]) *)

Module strconv.

Definition digitChar (d : N) : ascii := ascii_of_N (48 + d).

(** Digits are produced from the least significant one, each put in
    front of those already there. *)
Fixpoint formatBits (fuel : nat) (u : N) (acc : string) : string :=
  match fuel with
  | O => acc
  | S fuel' =>
      let acc' := String (digitChar (u mod 10)) acc in
      if (u / 10 =? 0)%N then acc' else formatBits fuel' (u / 10) acc'
  end.

(** [fmt.Sprintf("%d", u)] for an unsigned [u] of at most 64 bits, which
    has at most twenty digits. *)
Definition FormatUint (u : N) : string := formatBits 20 u EmptyString.

Definition digitValue (c : ascii) : option N :=
  let n := N_of_ascii c in
  if ((48 <=? n) && (n <=? 57))%N then Some (n - 48)%N else None.

Fixpoint parseDigits (s : string) (acc : N) : option N :=
  match s with
  | EmptyString => Some acc
  | String c s' =>
      match digitValue c with
      | None => None                          (* ErrSyntax *)
      | Some d =>
          let acc' := (acc * 10 + d)%N in
          if (acc' <? uint64_modulus)%N then parseDigits s' acc'
          else None                           (* ErrRange *)
      end
  end.

(** [strconv.ParseUint(s, 10, 64)]; [None] stands for its error. *)
Definition ParseUint (s : string) : option N :=
  match s with
  | EmptyString => None
  | _ => parseDigits s 0
  end.

End strconv.

(* ================================================================= *)
(** ** package address: address.go *)

Module address.

Definition bytesEqual (a b : list byte) : bool :=
  if list_eq_dec Byte.byte_eq_dec a b then true else false.

Definition Network := byte.
Definition Mainnet : Network := x00.
Definition Testnet : Network := x01.

Definition MainnetPrefix : string := "f".
Definition TestnetPrefix : string := "t".

Definition Protocol := byte.
Definition ID : Protocol := x00.
Definition SECP256K1 : Protocol := x01.
Definition Actor : Protocol := x02.
Definition BLS : Protocol := x03.

(** The error values of the package, and the error a failed base32
    decoding hands through. *)
Inductive AddrError : Type :=
| ErrUnknownNetwork
| ErrUnknownProtocol
| ErrInvalidPayload
| ErrInvalidLength
| ErrInvalidChecksum
| ErrEncoding (e : error).

(** What the package takes from elsewhere: its constants, declared in
    another file, and the libraries go-leb128, encoding/base32 (as
    [AddressEncoding.WithPadding(-1)]) and blake2b. *)
Record Deps : Type := mkDeps {
  PayloadHashLength : nat;
  ChecksumHashLength : nat;
  BlsPublicKeyBytes : nat;
  MaxAddressStringLength : nat;
  EmptyAddressString : string;
  leb128_FromUInt64 : N -> list byte;
  leb128_ToUInt64 : list byte -> Res N;
  EncodeToString : list byte -> string;
  DecodeString : string -> list byte * option error;
  blake2bConfig : Type;
  checksumHashConfig : blake2bConfig;
  payloadHashConfig : blake2bConfig;
  (** [blake2b.New(cfg)] followed by [Write] and [Sum(nil)]; [None]
      when the configuration is refused. *)
  blake2b_New : blake2bConfig -> option (list byte -> list byte)
}.

Section Codec.

Variable D : Deps.

(** [a.str[0]] *)
Definition Protocol_of (a : Address) : Res Protocol :=
  match str a with
  | [] => Panic "index out of range"
  | p :: _ => Val p
  end.

(** [[]byte(a.str[1:])] *)
Definition Payload (a : Address) : Res (list byte) :=
  match str a with
  | [] => Panic "slice bounds out of range"
  | _ :: payload => Val payload
  end.

Definition Bytes (a : Address) : list byte := str a.

Definition Equal (a b : Address) : bool := bytesEqual (Bytes a) (Bytes b).

Definition Empty (a : Address) : bool := bytesEqual (str a) (str Undef).

Definition hash (ingest : list byte) (cfg : blake2bConfig D)
  : Res (list byte) :=
  match blake2b_New D cfg with
  | None => Panic "invalid address hash configuration"
  | Some hasher => Val (hasher ingest)
  end.

Definition Checksum (ingest : list byte) : Res (list byte) :=
  hash ingest (checksumHashConfig D).

Definition ValidateChecksum (ingest expect : list byte) : Res bool :=
  match Checksum ingest with
  | Panic msg => Panic msg
  | Val digest => Val (bytesEqual digest expect)
  end.

Definition addressHash (ingest : list byte) : Res (list byte) :=
  hash ingest (payloadHashConfig D).

Definition newAddress (protocol : Protocol) (payload : list byte)
  : Address * option AddrError :=
  let build :=
    let buf := protocol :: payload in
    (mkAddress buf, None) in
  match protocol with
  | x00 => build
  | x01 | x02 =>
      if negb (length payload =? PayloadHashLength D)%nat
      then (Undef, Some ErrInvalidPayload) else build
  | x03 =>
      if negb (length payload =? BlsPublicKeyBytes D)%nat
      then (Undef, Some ErrInvalidPayload) else build
  | _ => (Undef, Some ErrUnknownProtocol)
  end.

Definition NewIDAddress (id : N) : Address * option AddrError :=
  newAddress ID (leb128_FromUInt64 D id).

Definition NewSecp256k1Address (pubkey : list byte)
  : Res (Address * option AddrError) :=
  match addressHash pubkey with
  | Panic msg => Panic msg
  | Val h => Val (newAddress SECP256K1 h)
  end.

Definition NewActorAddress (data : list byte)
  : Res (Address * option AddrError) :=
  match addressHash data with
  | Panic msg => Panic msg
  | Val h => Val (newAddress Actor h)
  end.

Definition NewBLSAddress (pubkey : list byte)
  : Address * option AddrError :=
  newAddress BLS pubkey.

Definition NewFromBytes (addr : list byte) : Address * option AddrError :=
  match addr with
  | [] => (Undef, None)
  | [_] => (Undef, Some ErrInvalidLength)
  | p :: payload => newAddress p payload
  end.

(** [encode].  After the test against [Undef] the address has a first
    byte, so [addr.Protocol()] and [addr.Payload()] are the head and
    the tail of its bytes. *)
Definition encode (network : Network) (addr : Address)
  : Res (string * option AddrError) :=
  match str addr with
  | [] => Val (EmptyAddressString D, None)
  | protocol :: payload =>
      match
        match network with
        | x00 => Some MainnetPrefix
        | x01 => Some TestnetPrefix
        | _ => None
        end
      with
      | None => Val (EmptyAddressString D, Some ErrUnknownNetwork)
      | Some ntwk =>
          match protocol with
          | x01 | x02 | x03 =>
              match Checksum (protocol :: payload) with
              | Panic msg => Panic msg
              | Val cksm =>
                  Val ((ntwk
                        ++ strconv.FormatUint (Byte.to_N protocol)
                        ++ EncodeToString D (payload ++ cksm))%string,
                       None)
              end
          | x00 =>
              match leb128_ToUInt64 D payload with
              | Panic msg => Panic msg
              | Val id =>
                  Val ((ntwk
                        ++ strconv.FormatUint (Byte.to_N protocol)
                        ++ strconv.FormatUint id)%string,
                       None)
              end
          | _ => Val (EmptyAddressString D, Some ErrUnknownProtocol)
          end
      end
  end.

(** [Address.String] encodes for the test network and panics on an
    error. *)
Definition String_ (a : Address) : Res string :=
  match encode Testnet a with
  | Panic msg => Panic msg
  | Val (s, Some _) => Panic "address: encode failed"
  | Val (s, None) => Val s
  end.

(** The [switch a[1]] of [decode]. *)
Definition protocolOfChar (c : ascii) : option Protocol :=
  if Ascii.eqb c "0" then Some ID
  else if Ascii.eqb c "1" then Some SECP256K1
  else if Ascii.eqb c "2" then Some Actor
  else if Ascii.eqb c "3" then Some BLS
  else None.

Definition decode (a : string) : Res (Address * option AddrError) :=
  if (String.length a =? 0)%nat then Val (Undef, None)
  else if String.eqb a (EmptyAddressString D) then Val (Undef, None)
  else if ((MaxAddressStringLength D <? String.length a)
           || (String.length a <? 3))%nat
  then Val (Undef, Some ErrInvalidLength)
  else
    match a with
    | String a0 (String a1 raw) =>
        if negb (String.eqb (String a0 EmptyString) MainnetPrefix)
           && negb (String.eqb (String a0 EmptyString) TestnetPrefix)
        then Val (Undef, Some ErrUnknownNetwork)
        else
          match protocolOfChar a1 with
          | None => Val (Undef, Some ErrUnknownProtocol)
          | Some protocol =>
              if Byte.eqb protocol ID then
                match strconv.ParseUint raw with
                | None => Val (Undef, Some ErrInvalidPayload)
                | Some id =>
                    Val (newAddress protocol (leb128_FromUInt64 D id))
                end
              else
                let '(payloadcksm, err) := DecodeString D raw in
                match err with
                | Some e => Val (Undef, Some (ErrEncoding e))
                | None =>
                    if (length payloadcksm <? ChecksumHashLength D)%nat
                    then Panic "slice bounds out of range"
                    else
                      let cut :=
                        (length payloadcksm - ChecksumHashLength D)%nat in
                      let payload := firstn cut payloadcksm in
                      let cksm := skipn cut payloadcksm in
                      if (Byte.eqb protocol SECP256K1
                          || Byte.eqb protocol Actor)
                         && negb (length payload =? 20)%nat
                      then Val (Undef, Some ErrInvalidPayload)
                      else
                        match
                          ValidateChecksum (protocol :: payload) cksm
                        with
                        | Panic msg => Panic msg
                        | Val false =>
                            Val (Undef, Some ErrInvalidChecksum)
                        | Val true => Val (newAddress protocol payload)
                        end
                end
          end
    | _ => Panic "index out of range"
    end.

Definition NewFromString (addr : string)
  : Res (Address * option AddrError) := decode addr.

(** An address of one of the four protocols with a valid payload: an
    ID payload is the LEB128 text of the number it decodes to, a
    SECP256K1 or Actor payload has the length of a payload hash, a
    BLS payload the length of a public key. *)
Definition validPayload (protocol : Protocol) (payload : list byte)
  : bool :=
  match protocol with
  | x00 =>
      match leb128_ToUInt64 D payload with
      | Val id => bytesEqual (leb128_FromUInt64 D id) payload
      | Panic _ => false
      end
  | x01 | x02 => (length payload =? PayloadHashLength D)%nat
  | x03 => (length payload =? BlsPublicKeyBytes D)%nat
  | _ => false
  end.

Definition wellFormed (a : Address) : bool :=
  match str a with
  | [] => false
  | protocol :: payload => validPayload protocol payload
  end.

End Codec.

(** What the codec needs from its constants and libraries. *)
Record DepsLaws (D : Deps) : Prop := mkDepsLaws {
  law_payload_hash_length : PayloadHashLength D = 20%nat;
  law_empty_string :
    forall s, EmptyAddressString D <> String "t" s;
  law_max_length :
    (22 <= MaxAddressStringLength D
     /\ 2 + (8 * (20 + ChecksumHashLength D) + 4) / 5
        <= MaxAddressStringLength D
     /\ 2 + (8 * (BlsPublicKeyBytes D + ChecksumHashLength D) + 4) / 5
        <= MaxAddressStringLength D)%nat;
  law_base32_roundtrip :
    forall x, DecodeString D (EncodeToString D x) = (x, None);
  law_base32_length :
    forall x, String.length (EncodeToString D x)
              = ((8 * length x + 4) / 5)%nat;
  law_checksum_length : (0 < ChecksumHashLength D)%nat;
  law_checksum :
    exists h, blake2b_New D (checksumHashConfig D) = Some h
              /\ forall x, length (h x) = ChecksumHashLength D;
  law_leb128_range :
    forall p n, leb128_ToUInt64 D p = Val n -> (n < uint64_modulus)%N;
  law_leb128_roundtrip :
    forall n, (n < uint64_modulus)%N ->
              leb128_ToUInt64 D (leb128_FromUInt64 D n) = Val n
}.

End address.

(* ================================================================= *)
(** ** The libraries of the address package, for reference

    LEB128 as go-leb128 computes it, base32 without padding over the
    alphabet of [AddressEncoding], and a stand-in for blake2b.  Together
    with the constants they make an instance of [address.Deps]. *)

Module leb128.

Definition byteOf (n : N) : byte :=
  match Byte.of_N n with Some b => b | None => x00 end.

(** The loop of [FromUInt64]: seven bits a round, the high bit set on
    every byte but the last. *)
Fixpoint fromLoop (fuel : nat) (n : N) : list byte :=
  match fuel with
  | O => []
  | S fuel' =>
      let b := N.land n 127 in
      let n' := N.shiftr n 7 in
      if (n' =? 0)%N then [byteOf b]
      else byteOf (N.lor b 128) :: fromLoop fuel' n'
  end.

(** A 64-bit number leaves the loop within ten rounds. *)
Definition FromUInt64 (n : N) : list byte := fromLoop 10 n.

(** The loop of [ToUInt64]: it indexes past the end, and panics, when
    the last byte has its high bit set. *)
Fixpoint toLoop (encoded : list byte) (shift result : N) : Res N :=
  match encoded with
  | [] => Panic "index out of range"
  | b :: rest =>
      let result' :=
        N.lor result
              (N.shiftl (N.land 127 (Byte.to_N b)) shift mod uint64_modulus) in
      if (N.land (Byte.to_N b) 128 =? 0)%N then Val result'
      else toLoop rest (shift + 7) result'
  end.

Definition ToUInt64 (encoded : list byte) : Res N := toLoop encoded 0 0.

(** What the two loops rely on for a value [k] of seven bits: masking
    keeps it, its high bit is clear, and setting the high bit adds 128
    and can be undone. *)
Definition sevenBitsCheck (k : nat) : bool :=
  let b := N.of_nat k in
  (N.land 127 b =? b)%N && (N.land b 128 =? 0)%N
  && (N.lor b 128 =? b + 128)%N
  && (N.land 127 (b + 128) =? b)%N && negb (N.land (b + 128) 128 =? 0)%N.

End leb128.

Module base32.

(** The alphabet of [AddressEncoding]. *)
Definition encodeStd : string := "abcdefghijklmnopqrstuvwxyz234567".

(** The bits of a byte, the most significant first. *)
Definition bitsOfByte (b : byte) : list bool :=
  let '(b0, (b1, (b2, (b3, (b4, (b5, (b6, b7))))))) := Byte.to_bits b in
  [b7; b6; b5; b4; b3; b2; b1; b0].

Definition byteOfBits (b7 b6 b5 b4 b3 b2 b1 b0 : bool) : byte :=
  Byte.of_bits (b0, (b1, (b2, (b3, (b4, (b5, (b6, b7))))))).

Definition bit (b : bool) : nat := if b then 1 else 0.

Definition charOfQuintet (b4 b3 b2 b1 b0 : bool) : ascii :=
  let v := 16 * bit b4 + 8 * bit b3 + 4 * bit b2 + 2 * bit b1 + bit b0 in
  match String.get v encodeStd with
  | Some c => c
  | None => "a"%char
  end.

Fixpoint indexOf (c : ascii) (s : string) : option nat :=
  match s with
  | EmptyString => None
  | String c' s' =>
      if Ascii.eqb c c' then Some 0 else option_map S (indexOf c s')
  end.

Definition quintetOfChar (c : ascii) : option (list bool) :=
  match indexOf c encodeStd with
  | None => None
  | Some v =>
      Some [Nat.testbit v 4; Nat.testbit v 3; Nat.testbit v 2;
            Nat.testbit v 1; Nat.testbit v 0]
  end.

(** Five bits a character; the last group is filled up with zeros. *)
Fixpoint quintets (bits : list bool) : string :=
  match bits with
  | [] => EmptyString
  | [b4] => String (charOfQuintet b4 false false false false) EmptyString
  | [b4; b3] => String (charOfQuintet b4 b3 false false false) EmptyString
  | [b4; b3; b2] => String (charOfQuintet b4 b3 b2 false false) EmptyString
  | [b4; b3; b2; b1] => String (charOfQuintet b4 b3 b2 b1 false) EmptyString
  | b4 :: b3 :: b2 :: b1 :: b0 :: rest =>
      String (charOfQuintet b4 b3 b2 b1 b0) (quintets rest)
  end.

Definition EncodeToString (src : list byte) : string :=
  quintets (flat_map bitsOfByte src).

Fixpoint bitsOfText (s : string) : option (list bool) :=
  match s with
  | EmptyString => Some []
  | String c s' =>
      match quintetOfChar c, bitsOfText s' with
      | Some q, Some r => Some (q ++ r)
      | _, _ => None
      end
  end.

(** Eight bits a byte; bits left over at the end are dropped. *)
Fixpoint octets (bits : list bool) : list byte :=
  match bits with
  | b7 :: b6 :: b5 :: b4 :: b3 :: b2 :: b1 :: b0 :: rest =>
      byteOfBits b7 b6 b5 b4 b3 b2 b1 b0 :: octets rest
  | _ => []
  end.

Definition DecodeString (s : string) : list byte * option error :=
  match bitsOfText s with
  | None => ([], Some "illegal base32 data"%string)
  | Some bits => (octets bits, None)
  end.

End base32.

Module blake2b.

(** [blake2b.Config], of which only the digest size matters here. *)
Record Config : Type := mkConfig { Size : nat }.

(** A stand-in for the hash: [size] bytes that depend on the input. *)
Definition digest (size : nat) (ingest : list byte) : list byte :=
  let h := fold_left (fun acc b => (acc * 31 + Byte.to_N b) mod 65521)%N
                     ingest 7%N in
  map (fun i => leb128.byteOf ((h + N.of_nat i * 131) mod 256)%N)
      (seq 0 size).

(** [blake2b.New] refuses a digest size outside of 1..64. *)
Definition New (cfg : Config) : option (list byte -> list byte) :=
  if ((1 <=? Size cfg) && (Size cfg <=? 64))%nat
  then Some (digest (Size cfg)) else None.

End blake2b.

(** The package with its libraries and the values of its constants. *)
Definition goDeps : address.Deps :=
  {| address.PayloadHashLength := 20;
     address.ChecksumHashLength := 4;
     address.BlsPublicKeyBytes := 48;
     address.MaxAddressStringLength := 2 + 84;
     address.EmptyAddressString := "<empty>";
     address.leb128_FromUInt64 := leb128.FromUInt64;
     address.leb128_ToUInt64 := leb128.ToUInt64;
     address.EncodeToString := base32.EncodeToString;
     address.DecodeString := base32.DecodeString;
     address.blake2bConfig := blake2b.Config;
     address.checksumHashConfig := blake2b.mkConfig 4;
     address.payloadHashConfig := blake2b.mkConfig 20;
     address.blake2b_New := blake2b.New |}.

(* ================================================================= *)
(** ** A small world to run the worker and the helpers in *)

Module demo.

Import context types consensus mining.

(** The ID address of actor 1234. *)
Definition minerID : Address := mkAddress (x00 :: leb128.FromUInt64 1234).

(** A SECP256K1 address with the payload 1, 2, ..., 20. *)
Definition secpAddr : Address :=
  mkAddress (x01 :: map (fun i => leb128.byteOf (N.of_nat i)) (seq 1 20)).

(** A signer that signs with the bytes of the address in front of the
    data, and one that has lost its key. *)
Definition mockSigner : Signer :=
  {| SignBytes := fun data addr => (str addr ++ data, None) |}.

Definition brokenSigner : Signer :=
  {| SignBytes := fun _ _ => ([], Some "missing key"%string) |}.

Definition genesis : Block :=
  {| Miner := Undef; Parents := []; types.Height := 5;
     ParentWeightNum := 10; ParentWeightDenom := 1; Nonce := 0;
     StateRoot := Some [x2a] |}.

Definition base : TipSet := [genesis].

(** A block at the greatest height a [uint64] holds. *)
Definition lastBlock : Block :=
  {| Miner := Undef; Parents := []; types.Height := 2 ^ 64 - 1;
     ParentWeightNum := 10; ParentWeightDenom := 1; Nonce := 0;
     StateRoot := Some [x2a] |}.

Definition toSortedCidSet (ts : TipSet) : SortedCidSet :=
  map (fun b => [leb128.byteOf (Nonce b)]) ts.

(** A weight function that counts the blocks over the parent weight. *)
Definition weigh (ts : TipSet) : N * N * option error :=
  match ts with
  | [] => (0%N, 0%N, Some ErrEmptyTipSet)
  | b :: _ =>
      ((ParentWeightNum b + N.of_nat (length ts) * ParentWeightDenom b)%N,
       ParentWeightDenom b, None)
  end.

Definition stateTreeOK : GetStateTree unit :=
  fun _ _ => (Some tt, None).

Definition stateTreeBoom : GetStateTree unit :=
  fun _ _ => (None, Some "boom no more state trees"%string).

Definition weightOf : GetWeight := fun _ ts => (N.of_nat (length ts), None).

Definition seedOf (base : TipSet) (nullBlkCount : N)
  : PoStChallengeSeed * option error :=
  (repeat (leb128.byteOf (nullBlkCount mod 256)) 32, None).

Definition alwaysWins : Context -> unit -> unit -> option unit ->
                        list byte -> Address -> bool * option error :=
  fun _ _ _ _ _ _ => (true, None).

Definition neverWins : Context -> unit -> unit -> option unit ->
                       list byte -> Address -> bool * option error :=
  fun _ _ _ _ _ _ => (false, None).

Definition generateFails :
    DefaultWorker unit unit unit unit unit unit -> Context -> TipSet ->
    list byte -> PoStProof -> N -> option Block * option error :=
  fun _ _ _ _ _ _ => (None, Some "get state tree"%string).

Definition worker (getStateTree : GetStateTree unit) (s : Signer)
  : DefaultWorker unit unit unit unit unit unit :=
  NewDefaultWorkerWithDeps tt getStateTree weightOf tt tt tt tt
    minerID s 30 (Some 0%nat).

(** A context cancelled before the call. *)
Definition cancelled : Context := mkContext (Some 0%nat).

Definition mine := Mine 192 32 seedOf alwaysWins generateFails.
Definition mineAndLose := Mine 192 32 seedOf neverWins generateFails.

End demo.


(* ================================================================= *)
(** ** package strings: the two trimming functions *)

Module strings.

(** [len(s) >= len(prefix) && s[0:len(prefix)] == prefix] *)
Definition HasPrefix (s prefix : string) : bool :=
  (String.length prefix <=? String.length s)%nat
  && String.eqb (substring 0 (String.length prefix) s) prefix.

(** [len(s) >= len(suffix) && s[len(s)-len(suffix):] == suffix] *)
Definition HasSuffix (s suffix : string) : bool :=
  (String.length suffix <=? String.length s)%nat
  && String.eqb (substring (String.length s - String.length suffix)
                           (String.length suffix) s) suffix.

Definition TrimPrefix (s prefix : string) : string :=
  if HasPrefix s prefix
  then substring (String.length prefix)
                 (String.length s - String.length prefix) s
  else s.

Definition TrimSuffix (s suffix : string) : string :=
  if HasSuffix s suffix
  then substring 0 (String.length s - String.length suffix) s
  else s.

End strings.

(* ================================================================= *)
(** ** package address: the JSON methods *)

Module addressJSON.

Import address.

(** The text of one double quote. *)
Definition quote : string := String (ascii_of_nat 34) EmptyString.

Section JSON.

Variable D : Deps.

(** [json.Marshal] on a string, of package encoding/json. *)
Variable json_Marshal : string -> string * option error.

(** [UnmarshalJSON]: the value is that of [*a] after the call, next to
    the error returned; on an error the receiver is left as it was. *)
Definition UnmarshalJSON (a : Address) (b : string)
  : Res (Address * option AddrError) :=
  let in_ := strings.TrimSuffix (strings.TrimPrefix b quote) quote in
  match decode D in_ with
  | Panic msg => Panic msg
  | Val (addr, Some err) => Val (a, Some err)
  | Val (addr, None) => Val (addr, None)
  end.

(** [MarshalJSON]: [json.Marshal(a.String())]. *)
Definition MarshalJSON (a : Address) : Res (string * option error) :=
  match String_ D a with
  | Panic msg => Panic msg
  | Val s => Val (json_Marshal s)
  end.

End JSON.

End addressJSON.

(* ================================================================= *)
(** ** package chain: the number of winners of an epoch *)

Module chainRandom.

(** The loop of [getWinningMinerCount], [i] running up to [n]; [below i]
    tells whether the [i]-th value drawn from [mrand.Float64()] was
    below [p]. *)
Fixpoint countWins (rounds : nat) (i : nat) (below : nat -> bool)
    (wins : Z) : Z :=
  match rounds with
  | O => wins
  | S rounds' =>
      countWins rounds' (S i) below (if below i then wins + 1 else wins)%Z
  end.

(** [getWinningMinerCount(n, p)]: the loop runs while [i < n], not at
    all when [n] is zero or negative. *)
Definition getWinningMinerCount (n : Z) (below : nat -> bool) : Z :=
  countWins (Z.to_nat n) 0 below 0.

End chainRandom.

(* ================================================================= *)
(** ** More of the small world *)

Module demo2.

Import context types consensus mining.



(** A worker whose proof never completes. *)
Definition stuckWorker : DefaultWorker unit unit unit unit unit unit :=
  NewDefaultWorkerWithDeps tt demo.stateTreeOK demo.weightOf tt tt tt tt
    demo.minerID demo.mockSigner 30 None.

(** The worker [NewDefaultWorker] makes, with a block time of 30 ticks. *)
Definition defaultWorker : DefaultWorker unit unit unit unit unit unit :=
  NewDefaultWorker tt demo.stateTreeOK demo.weightOf tt tt tt tt
    demo.minerID demo.mockSigner 30.

(** A context cancelled while the proof is being made. *)
Definition cancelledLater : Context := mkContext (Some 10%nat).

(** A weight function that fails. *)
Definition weighFails (ts : TipSet) : N * N * option error :=
  (0%N, 0%N, Some "no weight"%string).

(** A consensus protocol that weighs as [demo.weigh] does. *)
Definition con : chain.Protocol unit :=
  chain.mkProtocol (fun _ ts _ => demo.weigh ts).

(** [json.Marshal] on texts that need no escaping. *)
Definition jsonQuote (s : string) : string * option error :=
  ((addressJSON.quote ++ s ++ addressJSON.quote)%string, None).

(** Every second draw is below [p]. *)
Definition everyOther (i : nat) : bool := Nat.even i.

End demo2.

(* ================================================================= *)
(** * Properties *)

(** Case analysis on every [match] and [if] standing in the goal. *)
Ltac split_matches :=
  repeat match goal with
         | |- context [match ?x with _ => _ end] => destruct x eqn:?
         | |- context [if ?b then _ else _] => destruct b eqn:?
         end.

(* ================================================================= *)
(** ** The mining worker *)

Section MiningProperties.

Import context types consensus mining.

Variables StateTree MessagePool MessageApplier PowerTableView
          Blockstore CborIpldStore : Type.
Variables PoStProofLen PoStChallengeSeedLen : nat.

Let Worker := DefaultWorker StateTree MessagePool MessageApplier
                PowerTableView Blockstore CborIpldStore.

Variable CreateChallengeSeed :
  TipSet -> N -> PoStChallengeSeed * option error.
Variable IsWinningTicket :
  Context -> Blockstore -> PowerTableView -> option StateTree ->
  list byte -> Address -> bool * option error.
Variable Generate :
  Worker -> Context -> TipSet -> list byte -> PoStProof -> N ->
  option Block * option error.

Let Mine := Mine PoStProofLen PoStChallengeSeedLen CreateChallengeSeed
              IsWinningTicket Generate.
Let mineSelected := mineSelected (StateTree := StateTree) PoStProofLen
                      IsWinningTicket Generate.
Let zeroSeed := zeroBytes PoStChallengeSeedLen.

(** What the [select] part does, case by case. *)
Lemma mineSelected_outputs (w : Worker) ctx base n st sel :
  (length (outCh (mineSelected w ctx base n st sel)) <= 1)%nat.
Proof.
  unfold mineSelected, mining.mineSelected.
  split_matches; simpl; lia.
Qed.




(** A context cancelled at some tick stays cancelled. *)
Lemma ctxErr_mono ctx t t' :
  (t <= t')%nat -> ctxErr ctx t <> None -> ctxErr ctx t' <> None.
Proof.
  unfold ctxErr. destruct (cancelledAt ctx) as [c|]; [|auto].
  destruct (Nat.leb_spec c t), (Nat.leb_spec c t'); intros; try congruence.
  lia.
Qed.

(** C1.  A call of [Mine] sends at most one [Output] on [outCh], and
    none when it leaves through either cancellation return (the
    [ctx.Err()] test or the [ctx.Done()] case of the [select]) or
    through the final not-winner return. *)
Theorem Mine_at_most_one_output (w : Worker) ctx base n pick :
  let r := Mine w ctx base n pick in
  (length (outCh r) <= 1)%nat
  /\ (forall b, outcome r = Returned b ExitCtxErr
                \/ outcome r = Returned b ExitCtxDone ->
                outCh r = [] /\ b = false)
  /\ (forall b, outcome r = Returned b ExitNotWinner ->
                outCh r = [] /\ b = false).
Proof.
  unfold Mine, mining.Mine, mining.mineSelected; cbv zeta.
  split_matches; simpl;
    (split; [lia|]); split; intros ret H;
    try destruct H as [H|H]; try discriminate H;
    inversion H; auto.
Qed.

(** The not-winner return is taken exactly when the win check says
    [false] without an error, after everything before it succeeded. *)
Lemma Mine_not_winner (w : Worker) ctx base n pick st challenge ticket :
  base <> [] ->
  getStateTree w ctx base = (st, None) ->
  ctxErr ctx tickCtxErr = None ->
  CreateChallengeSeed base (uint64_of_int n) = (challenge, None) ->
  selectDoneOrRecv zeroSeed ctx
    (createProof challenge (createPoSTFunc w) tickSelect) pick
    = CaseRecv challenge true ->
  CreateTicket (copy (zeroBytes PoStProofLen) challenge)
               (minerAddr w) (signer w) = Val ticket ->
  IsWinningTicket ctx (blockstore w) (powerTable w) st ticket (minerAddr w)
    = (false, None) ->
  Mine w ctx base n pick = mkRun [] (Returned false ExitNotWinner).
Proof.
  intros Hb Hst Hctx Hseed Hsel Htk Hwin.
  unfold Mine, mining.Mine.
  destruct base; [congruence|]; simpl.
  rewrite Hst, Hctx, Hseed. fold zeroSeed. rewrite Hsel.
  unfold mining.mineSelected; simpl. rewrite Htk, Hwin. reflexivity.
Qed.

(** Cancellation seen by the [select]: nothing is sent. *)
Lemma Mine_cancelled_in_select (w : Worker) ctx base n pick st challenge :
  base <> [] ->
  getStateTree w ctx base = (st, None) ->
  ctxErr ctx tickCtxErr = None ->
  CreateChallengeSeed base (uint64_of_int n) = (challenge, None) ->
  selectDoneOrRecv zeroSeed ctx
    (createProof challenge (createPoSTFunc w) tickSelect) pick
    = CaseDone ->
  Mine w ctx base n pick = mkRun [] (Returned false ExitCtxDone).
Proof.
  intros Hb Hst Hctx Hseed Hsel.
  unfold Mine, mining.Mine.
  destruct base; [congruence|]; simpl.
  rewrite Hst, Hctx, Hseed. fold zeroSeed. rewrite Hsel. reflexivity.
Qed.

(** C2.  When [Mine] reaches the winner branch, that is when every step
    up to the win check succeeded and [IsWinningTicket] gave [true] and
    no error, it sends exactly the one [Output] made of what [Generate]
    returned for the base tipset, the ticket, the proof and the null
    block count, and returns [true], whether [Generate] failed or not. *)
Theorem Mine_winner_emits_generate_result
    (w : Worker) ctx base n pick st challenge ticket :
  base <> [] ->
  getStateTree w ctx base = (st, None) ->
  ctxErr ctx tickCtxErr = None ->
  CreateChallengeSeed base (uint64_of_int n) = (challenge, None) ->
  selectDoneOrRecv zeroSeed ctx
    (createProof challenge (createPoSTFunc w) tickSelect) pick
    = CaseRecv challenge true ->
  CreateTicket (copy (zeroBytes PoStProofLen) challenge)
               (minerAddr w) (signer w) = Val ticket ->
  IsWinningTicket ctx (blockstore w) (powerTable w) st ticket (minerAddr w)
    = (true, None) ->
  let g := Generate w ctx base ticket
             (copy (zeroBytes PoStProofLen) challenge) (uint64_of_int n) in
  Mine w ctx base n pick
    = mkRun [ {| NewBlock := fst g; Err := snd g |} ]
            (Returned true ExitWinner).
Proof.
  intros Hb Hst Hctx Hseed Hsel Htk Hwin g.
  unfold Mine, mining.Mine.
  destruct base; [congruence|]; simpl.
  rewrite Hst, Hctx, Hseed. fold zeroSeed. rewrite Hsel.
  unfold mining.mineSelected; simpl. rewrite Htk, Hwin.
  subst g. destruct (Generate _ _ _ _ _ _); reflexivity.
Qed.

(** C3, as amended.  With a context already cancelled at entry, a
    non-empty base tipset and a state-tree fetch that succeeds, [Mine]
    returns [false] and sends nothing. *)
Theorem Mine_cancelled_at_entry (w : Worker) ctx base n pick :
  ctxErr ctx 0 <> None ->
  base <> [] ->
  snd (getStateTree w ctx base) = None ->
  Mine w ctx base n pick = mkRun [] (Returned false ExitCtxErr).
Proof.
  intros Hc Hb Hst.
  unfold Mine, mining.Mine.
  destruct base; [congruence|]; simpl.
  destruct (getStateTree w ctx (b :: base)) as [st err];
    simpl in Hst; subst err.
  apply (@ctxErr_mono ctx 0 tickCtxErr) in Hc; [|unfold tickCtxErr; lia].
  destruct (ctxErr ctx tickCtxErr); [reflexivity|congruence].
Qed.

(** When the state-tree fetch fails, its error is sent, whatever the
    state of the context. *)
Lemma Mine_state_tree_error (w : Worker) ctx base n pick st e :
  base <> [] ->
  getStateTree w ctx base = (st, Some e) ->
  Mine w ctx base n pick
    = mkRun [ {| NewBlock := None; Err := Some e |} ]
            (Returned false ExitStateTreeError).
Proof.
  intros Hb Hst. unfold Mine, mining.Mine.
  destruct base; [congruence|]; simpl. rewrite Hst. reflexivity.
Qed.

(** C4.  On an empty base tipset [Mine] sends exactly one [Output],
    with no block and a non-nil error, and returns [false], before
    looking at its context or calling any collaborator. *)
Theorem Mine_empty_tipset (w : Worker) ctx n pick :
  Mine w ctx [] n pick
    = mkRun [ {| NewBlock := None;
                 Err := Some "bad input tipset with no blocks sent to Mine()"%string |} ]
            (Returned false ExitEmptyTipSet).
Proof. reflexivity. Qed.

(** C5.  If [SignBytes] returns an error, [CreateTicket] panics, with a
    message made from that error, and yields no ticket; in [Mine] the
    panic leaves the call without a return value and with nothing sent on
    the channel, not even an error [Output]. *)
Theorem CreateTicket_sign_error_panics
    (proof : PoStProof) (addr : Address) (s : Signer) sig e :
  SignBytes s proof addr = (sig, Some e) ->
  CreateTicket proof addr s
    = Panic ("SignBytes error in CreateTicket: " ++ e)%string
  /\ (forall ticket, CreateTicket proof addr s <> Val ticket)
  /\ (forall (w : Worker) ctx base n st seed,
        signer w = s -> minerAddr w = addr ->
        copy (zeroBytes PoStProofLen) seed = proof ->
        mining.mineSelected PoStProofLen IsWinningTicket Generate
          w ctx base n st (CaseRecv seed true)
        = mkRun []
            (Panicked ("SignBytes error in CreateTicket: " ++ e)%string)).
Proof.
  clear Mine mineSelected zeroSeed CreateChallengeSeed.
  intros H.
  assert (E : CreateTicket proof addr s
              = Panic ("SignBytes error in CreateTicket: " ++ e)%string)
    by (unfold CreateTicket; rewrite H; reflexivity).
  split; [exact E|]. split; [rewrite E; discriminate|].
  intros w ctx base n st seed Hs Ha Hp.
  unfold mining.mineSelected; simpl. rewrite Hs, Ha, Hp, E. reflexivity.
Qed.

(** C6.  If [SignBytes] succeeds on the proof bytes under the miner
    address, [CreateTicket] returns exactly that signature; hence the
    ticket passes any verification that accepts what the signer
    produces for the data and the address it is given. *)
Theorem CreateTicket_is_signature_over_proof
    (proof : PoStProof) (addr : Address) (s : Signer) sig :
  SignBytes s proof addr = (sig, None) ->
  CreateTicket proof addr s = Val sig
  /\ forall verify : list byte -> Address -> list byte -> bool,
       (forall data a sg, SignBytes s data a = (sg, None) ->
                          verify data a sg = true) ->
       verify proof addr sig = true.
Proof.
  intros H. unfold CreateTicket. rewrite H. split; [reflexivity|].
  intros verify Hv. apply Hv, H.
Qed.



End MiningProperties.

(* ================================================================= *)
(** ** The fake-chain helpers *)

Section ChainProperties.

Import context types consensus chain.

Variable ToSortedCidSet : TipSet -> SortedCidSet.

Lemma add64_succ_add (h n : N) :
  add64 (add64 h 1) n = ((h + 1 + n) mod 2 ^ 64)%N.
Proof.
  unfold add64, uint64_modulus.
  rewrite N.Div0.add_mod_idemp_l. reflexivity.
Qed.

(** A tipset that has a height has a first block. *)
Lemma Height_ok_nonempty (ts : TipSet) h :
  Height ts = (h, None) -> exists b rest, ts = b :: rest /\ types.Height b = h.
Proof.
  unfold Height, ToSlice. destruct ts as [|b rest]; [discriminate|].
  intros E; inversion E; eauto.
Qed.

(** C8, as amended.  When the weight function and the height of the
    parent succeed, [MkFakeChildCore] returns a block whose height is
    [h + 1 + n] reduced modulo [2^64], which is [h + 1 + n] itself
    whenever that sum fits in 64 bits, and whose parent weight is the
    numerator and the denominator the weight function gave for the
    parent. *)
Theorem MkFakeChildCore_height_and_weight
    (parent : TipSet) genCid stateRoot nonce n wFun nW dW h :
  wFun parent = (nW, dW, None) ->
  Height parent = (h, None) ->
  exists blk,
    MkFakeChildCore ToSortedCidSet parent genCid stateRoot nonce n wFun
      = Val (Some blk, None)
    /\ types.Height blk = ((h + 1 + n) mod 2 ^ 64)%N
    /\ ((h + 1 + n < 2 ^ 64)%N -> types.Height blk = (h + 1 + n)%N)
    /\ ParentWeightNum blk = nW
    /\ ParentWeightDenom blk = dW.
Proof.
  intros Hw Hh.
  destruct (Height_ok_nonempty _ Hh) as (b & rest & -> & Hb).
  unfold MkFakeChildCore. rewrite Hw, Hh. unfold ToSlice.
  destruct stateRoot as [r|]; eexists; (split; [reflexivity|]); simpl;
    rewrite add64_succ_add;
    (split; [reflexivity|]); (split; [|split; reflexivity]);
    intros Hlt; apply N.mod_small; exact Hlt.
Qed.

(** The same through [MkFakeChildWithCon], whose weight function asks
    the consensus protocol for the weight of the parent. *)
Lemma MkFakeChildWithCon_height_and_weight (StateTree : Type)
    (parent : TipSet) genCid stateRoot nonce n
    (con : Protocol StateTree) nW dW h :
  Weight con Background parent None = (nW, dW, None) ->
  Height parent = (h, None) ->
  exists blk,
    MkFakeChildWithCon ToSortedCidSet parent genCid stateRoot nonce n con
      = Val (Some blk, None)
    /\ types.Height blk = ((h + 1 + n) mod 2 ^ 64)%N
    /\ ParentWeightNum blk = nW
    /\ ParentWeightDenom blk = dW.
Proof.
  intros Hw Hh. unfold MkFakeChildWithCon.
  destruct (@MkFakeChildCore_height_and_weight parent genCid stateRoot
              nonce n (fun _ => Weight con Background parent None)
              nW dW h Hw Hh) as (blk & E & H1 & _ & H2 & H3).
  exists blk; auto.
Qed.

(** [MkFakeChildCore] assigns no miner address. *)
Lemma MkFakeChildCore_no_miner
    (parent : TipSet) genCid stateRoot nonce n wFun blk :
  MkFakeChildCore ToSortedCidSet parent genCid stateRoot nonce n wFun
    = Val (Some blk, None) ->
  Miner blk = Undef.
Proof.
  unfold MkFakeChildCore.
  destruct (wFun parent) as [[nW dW] [e|]]; [discriminate|].
  destruct (Height parent) as [h [e|]]; [discriminate|].
  destruct stateRoot; [|destruct (ToSlice parent); [discriminate|]];
    intros E; inversion E; reflexivity.
Qed.

End ChainProperties.

(* ================================================================= *)
(** ** The shape of a weight *)

Section WeightProperties.

Import context types consensus mining.

Variables StateTree MessagePool MessageApplier PowerTableView
          Blockstore CborIpldStore : Type.

(** C7.  The weight the worker gets from its [getWeight] is one
    [uint64] next to the error, not a numerator and a denominator;
    the weight function of the chain helpers and [Weight] of the
    consensus protocol give the two numbers. *)
Theorem GetWeight_yields_one_number
    (w : DefaultWorker StateTree MessagePool MessageApplier
           PowerTableView Blockstore CborIpldStore)
    (con : chain.Protocol StateTree) ctx (ts : TipSet) st :
  (exists (weight : N) (err : option error),
      getWeight w ctx ts = (weight, err))
  /\ (exists (nW dW : N) (err : option error),
        chain.Weight con ctx ts st = (nW, dW, err)).
Proof.
  split.
  - destruct (getWeight w ctx ts) as [weight err]. eauto.
  - destruct (chain.Weight con ctx ts st) as [[nW dW] err]. eauto.
Qed.

End WeightProperties.

(* ================================================================= *)
(** ** Strings *)

Lemma string_append_assoc (s1 s2 s3 : string) :
  ((s1 ++ s2) ++ s3 = s1 ++ (s2 ++ s3))%string.
Proof. induction s1; simpl; [reflexivity|]. now f_equal. Qed.

Lemma string_length_append (s1 s2 : string) :
  String.length (s1 ++ s2) = String.length s1 + String.length s2.
Proof. induction s1; simpl; [reflexivity|]. now f_equal. Qed.

(* ================================================================= *)
(** ** Decimal text *)

Section DecimalProperties.

Import strconv.

Local Open Scope N_scope.

Lemma digitValue_digitChar d : d < 10 -> digitValue (digitChar d) = Some d.
Proof.
  intros H. rewrite <- (N2Nat.id d) in *.
  assert (Hk : (N.to_nat d < 10)%nat) by lia.
  clear H. revert Hk. generalize (N.to_nat d) as k.
  intros k Hk.
  do 10 (destruct k as [|k]; [reflexivity|]). lia.
Qed.

Lemma formatBits_app fuel : forall u acc,
  formatBits fuel u acc = (formatBits fuel u EmptyString ++ acc)%string.
Proof.
  induction fuel as [|fuel IH]; intros u acc; simpl; [reflexivity|].
  destruct (u / 10 =? 0); [reflexivity|].
  rewrite IH. rewrite (IH _ (String _ EmptyString)).
  rewrite string_append_assoc. reflexivity.
Qed.

Lemma parseDigits_app s1 : forall s2 acc,
  parseDigits (s1 ++ s2) acc
    = match parseDigits s1 acc with
      | Some a => parseDigits s2 a
      | None => None
      end.
Proof.
  induction s1 as [|c s1 IH]; intros s2 acc; simpl; [reflexivity|].
  destruct (digitValue c); [|reflexivity].
  destruct (_ <? _); [apply IH|reflexivity].
Qed.

Lemma parseDigits_formatBits fuel : forall u,
  u < 10 ^ N.of_nat fuel -> u < uint64_modulus ->
  parseDigits (formatBits fuel u EmptyString) 0 = Some u.
Proof.
  induction fuel as [|fuel IH]; intros u Hu H64.
  - simpl in *. assert (u = 0) by lia. subst. reflexivity.
  - cbn [formatBits].
    assert (Hd : u mod 10 < 10) by (apply N.mod_lt; lia).
    assert (Hdiv : u = 10 * (u / 10) + u mod 10)
      by (apply N.div_mod; lia).
    destruct (N.eqb_spec (u / 10) 0) as [Hz|Hnz].
    + cbn [parseDigits]. rewrite digitValue_digitChar by exact Hd.
      replace (0 * 10 + u mod 10) with u by lia.
      apply N.ltb_lt in H64. rewrite H64. reflexivity.
    + rewrite formatBits_app, parseDigits_app.
      rewrite IH.
      * cbn [parseDigits]. rewrite digitValue_digitChar by exact Hd.
        replace (u / 10 * 10 + u mod 10) with u by lia.
        apply N.ltb_lt in H64. rewrite H64. reflexivity.
      * rewrite Nat2N.inj_succ, N.pow_succ_r' in Hu.
        apply N.Div0.div_lt_upper_bound. lia.
      * apply N.le_lt_trans with u; [|exact H64].
        apply N.Div0.div_le_upper_bound. lia.
Qed.

Lemma formatBits_length fuel : forall u acc,
  (String.length acc <= String.length (formatBits fuel u acc)
   <= fuel + String.length acc)%nat.
Proof.
  induction fuel as [|fuel IH]; intros u acc; simpl; [lia|].
  destruct (u / 10 =? 0); simpl; [lia|].
  specialize (IH (u / 10) (String (digitChar (u mod 10)) acc)).
  simpl in IH. lia.
Qed.

Lemma formatBits_S fuel u acc :
  formatBits (S fuel) u acc
    = if u / 10 =? 0 then String (digitChar (u mod 10)) acc
      else formatBits fuel (u / 10) (String (digitChar (u mod 10)) acc).
Proof. reflexivity. Qed.

(** A decimal text has between one and twenty characters. *)
Lemma FormatUint_length u :
  (1 <= String.length (FormatUint u) <= 20)%nat.
Proof.
  unfold FormatUint. rewrite (formatBits_S 19).
  destruct (u / 10 =? 0); [simpl; lia|].
  pose proof (formatBits_length 19 (u / 10)
                (String (digitChar (u mod 10)) EmptyString)) as H.
  cbn [String.length] in H. lia.
Qed.

(** Parsing the decimal text of a 64-bit number gives it back. *)
Lemma ParseUint_FormatUint u :
  u < uint64_modulus -> ParseUint (FormatUint u) = Some u.
Proof.
  intros H64. unfold ParseUint.
  pose proof (FormatUint_length u) as Hlen.
  destruct (FormatUint u) eqn:E; [simpl in Hlen; lia|].
  rewrite <- E. unfold FormatUint. apply parseDigits_formatBits; [|exact H64].
  eapply N.lt_trans; [exact H64|]. unfold uint64_modulus. reflexivity.
Qed.

End DecimalProperties.

(* ================================================================= *)
(** ** The address codec *)

Section AddressProperties.

Import address.

Variable D : Deps.
Hypothesis laws : DepsLaws D.

Lemma bytesEqual_eq a b : bytesEqual a b = true <-> a = b.
Proof.
  unfold bytesEqual. destruct (list_eq_dec _ a b); split; congruence.
Qed.

Lemma bytesEqual_refl a : bytesEqual a a = true.
Proof. apply bytesEqual_eq; reflexivity. Qed.

Lemma FormatUint_protocol_digit :
  strconv.FormatUint 0 = "0"%string
  /\ strconv.FormatUint 1 = "1"%string
  /\ strconv.FormatUint 2 = "2"%string
  /\ strconv.FormatUint 3 = "3"%string.
Proof. repeat split; vm_compute; reflexivity. Qed.

(** The first steps of [decode] on a text that starts with the test
    network letter and a protocol digit. *)
Lemma decode_testnet_text (c : ascii) (raw : string) :
  (1 <= String.length raw)%nat ->
  (2 + String.length raw <= MaxAddressStringLength D)%nat ->
  decode D (String "t" (String c raw))
  = match protocolOfChar c with
    | None => Val (Undef, Some ErrUnknownProtocol)
    | Some protocol =>
        if Byte.eqb protocol ID then
          match strconv.ParseUint raw with
          | None => Val (Undef, Some ErrInvalidPayload)
          | Some id => Val (newAddress D protocol (leb128_FromUInt64 D id))
          end
        else
          let '(payloadcksm, err) := DecodeString D raw in
          match err with
          | Some e => Val (Undef, Some (ErrEncoding e))
          | None =>
              if (length payloadcksm <? ChecksumHashLength D)%nat
              then Panic "slice bounds out of range"
              else
                let cut :=
                  (length payloadcksm - ChecksumHashLength D)%nat in
                let payload := firstn cut payloadcksm in
                let cksm := skipn cut payloadcksm in
                if (Byte.eqb protocol SECP256K1 || Byte.eqb protocol Actor)
                   && negb (length payload =? 20)%nat
                then Val (Undef, Some ErrInvalidPayload)
                else
                  match ValidateChecksum D (protocol :: payload) cksm with
                  | Panic msg => Panic msg
                  | Val false => Val (Undef, Some ErrInvalidChecksum)
                  | Val true => Val (newAddress D protocol payload)
                  end
          end
    end.
Proof.
  intros Hlo Hhi. unfold decode.
  cbn [String.length Nat.eqb].
  destruct (String.eqb_spec (String "t" (String c raw))
              (EmptyAddressString D)) as [E|_].
  { exfalso. symmetry in E. exact (law_empty_string laws E). }
  replace (MaxAddressStringLength D <? S (S (String.length raw)))%nat
    with false by (symmetry; apply Nat.ltb_ge; simpl in Hhi; lia).
  replace (S (S (String.length raw)) <? 3)%nat
    with false by (symmetry; apply Nat.ltb_ge; lia).
  reflexivity.
Qed.

Lemma roundtrip_ID payload :
  validPayload D ID payload = true ->
  exists s, String_ D (mkAddress (ID :: payload)) = Val s
            /\ decode D s = Val (mkAddress (ID :: payload), None).
Proof.
  unfold validPayload, ID.
  destruct (leb128_ToUInt64 D payload) as [id|] eqn:Hto; [|discriminate].
  intros Hcanon. apply bytesEqual_eq in Hcanon.
  pose proof (law_leb128_range laws _ Hto) as Hrange.
  unfold String_, encode, Testnet. cbn [str]. rewrite Hto.
  eexists; split; [reflexivity|].
  cbn [Byte.to_N]. destruct FormatUint_protocol_digit as (-> & _).
  cbn [TestnetPrefix append].
  pose proof (strconv_FormatUint_length := FormatUint_length id).
  destruct (law_max_length laws) as (Hmax & _).
  rewrite decode_testnet_text by lia.
  change (protocolOfChar "0") with (Some ID). cbv iota beta.
  change (Byte.eqb ID ID) with true. cbv iota.
  rewrite ParseUint_FormatUint by exact Hrange.
  rewrite Hcanon. reflexivity.
Qed.

Lemma firstn_skipn_cut (payload cksm : list byte) :
  firstn (length (payload ++ cksm) - length cksm) (payload ++ cksm) = payload
  /\ skipn (length (payload ++ cksm) - length cksm) (payload ++ cksm) = cksm.
Proof.
  rewrite length_app, Nat.add_sub. split.
  - rewrite firstn_app, Nat.sub_diag, firstn_all. simpl.
    apply app_nil_r.
  - rewrite skipn_app, Nat.sub_diag, skipn_all. reflexivity.
Qed.

Lemma roundtrip_hashed (protocol : Protocol) (c : ascii) payload :
  protocol <> ID ->
  protocolOfChar c = Some protocol ->
  strconv.FormatUint (Byte.to_N protocol) = String c EmptyString ->
  (Byte.eqb protocol SECP256K1 || Byte.eqb protocol Actor = true ->
   length payload = 20%nat) ->
  (length payload = 20 \/ length payload = BlsPublicKeyBytes D)%nat ->
  newAddress D protocol payload = (mkAddress (protocol :: payload), None) ->
  encode D Testnet (mkAddress (protocol :: payload))
    = match Checksum D (protocol :: payload) with
      | Panic msg => Panic msg
      | Val cksm =>
          Val ((TestnetPrefix
                ++ strconv.FormatUint (Byte.to_N protocol)
                ++ EncodeToString D (payload ++ cksm))%string, None)
      end ->
  exists s, String_ D (mkAddress (protocol :: payload)) = Val s
            /\ decode D s = Val (mkAddress (protocol :: payload), None).
Proof.
  intros Hnid Hchar Hdigit Hlen20 Hlen Hnew Henc.
  destruct (law_checksum laws) as (h & Hh & Hhlen).
  unfold String_. rewrite Henc. unfold Checksum, hash. rewrite Hh.
  eexists; split; [reflexivity|].
  rewrite Hdigit. cbn [TestnetPrefix append].
  set (cksm := h (protocol :: payload)).
  assert (Hck : length cksm = ChecksumHashLength D) by apply Hhlen.
  pose proof (law_base32_length laws (payload ++ cksm)) as Hb32.
  rewrite length_app, Hck in Hb32.
  destruct (law_max_length laws) as (_ & Hmax1 & Hmax2).
  assert (Hsz : (1 <= String.length (EncodeToString D (payload ++ cksm))
                 /\ 2 + String.length (EncodeToString D (payload ++ cksm))
                    <= MaxAddressStringLength D)%nat).
  { pose proof (law_checksum_length laws) as Hpos.
    rewrite Hb32. destruct Hlen as [->| ->]; split; try assumption;
      apply Nat.div_le_lower_bound; lia. }
  rewrite decode_testnet_text by lia.
  rewrite Hchar.
  replace (Byte.eqb protocol ID) with false.
  2:{ symmetry. destruct (Byte.eqb protocol ID) eqn:E; [|reflexivity].
      apply Byte.byte_dec_bl in E. contradiction. }
  rewrite (law_base32_roundtrip laws).
  replace (length (payload ++ cksm) <? ChecksumHashLength D)%nat with false
    by (symmetry; apply Nat.ltb_ge; rewrite length_app; lia).
  cbv zeta. rewrite <- Hck.
  destruct (firstn_skipn_cut payload cksm) as (-> & ->).
  replace ((Byte.eqb protocol SECP256K1 || Byte.eqb protocol Actor)
           && negb (length payload =? 20)%nat) with false.
  2:{ symmetry. destruct (Byte.eqb protocol SECP256K1
                          || Byte.eqb protocol Actor) eqn:E; [|reflexivity].
      rewrite (Hlen20 eq_refl). reflexivity. }
  unfold ValidateChecksum, Checksum, hash. rewrite Hh.
  fold cksm. rewrite bytesEqual_refl. rewrite Hnew. reflexivity.
Qed.

(** An address [newAddress] accepts for a protocol other than ID is
    well formed. *)
Lemma newAddress_wellFormed protocol payload a :
  protocol <> ID ->
  newAddress D protocol payload = (a, None) ->
  wellFormed D a = true.
Proof.
  intros Hnid. unfold newAddress, wellFormed.
  destruct protocol; try discriminate; try (exfalso; apply Hnid; reflexivity);
    destruct (length payload =? _)%nat eqn:E; try discriminate;
    intros H; inversion H; subst a; cbn [str validPayload]; exact E.
Qed.

(** So is the address [NewIDAddress] makes of a 64-bit number. *)
Lemma NewIDAddress_wellFormed id :
  (id < uint64_modulus)%N ->
  exists a, NewIDAddress D id = (a, None) /\ wellFormed D a = true.
Proof.
  intros Hid. unfold NewIDAddress, newAddress, ID.
  eexists; split; [reflexivity|].
  unfold wellFormed; cbn [str validPayload].
  rewrite (law_leb128_roundtrip laws Hid). apply bytesEqual_refl.
Qed.

(** C9.  For a well-formed address, [String] yields a text that
    [NewFromString] (that is [decode]) turns back into the same address,
    without an error. *)
Theorem address_string_roundtrip (a : Address) :
  wellFormed D a = true ->
  exists s, String_ D a = Val s /\ NewFromString D s = Val (a, None).
Proof.
  unfold NewFromString, wellFormed.
  destruct a as [[|p payload]]; cbn [str]; [discriminate|].
  intros H.
  destruct FormatUint_protocol_digit as (_ & F1 & F2 & F3).
  pose proof (law_payload_hash_length laws) as Hphl.
  destruct p; cbn [validPayload] in H; try discriminate H.
  - apply roundtrip_ID. exact H.
  - rewrite Hphl in H. pose proof H as Hn. apply Nat.eqb_eq in Hn.
    apply (@roundtrip_hashed x01 "1"); auto; try discriminate.
    unfold newAddress. rewrite Hphl, H. reflexivity.
  - rewrite Hphl in H. pose proof H as Hn. apply Nat.eqb_eq in Hn.
    apply (@roundtrip_hashed x02 "2"); auto; try discriminate.
    unfold newAddress. rewrite Hphl, H. reflexivity.
  - pose proof H as Hn. apply Nat.eqb_eq in Hn.
    apply (@roundtrip_hashed x03 "3"); auto; try discriminate.
    unfold newAddress. rewrite H. reflexivity.
Qed.

End AddressProperties.

(* ================================================================= *)
(** ** The reference libraries satisfy the laws *)

Section Leb128Properties.

Import leb128.
Local Open Scope N_scope.

Lemma to_N_byteOf n : n < 256 -> Byte.to_N (byteOf n) = n.
Proof.
  intros H. unfold byteOf.
  destruct (Byte.of_N n) as [b|] eqn:E.
  - apply Byte.to_of_N. exact E.
  - apply Byte.of_N_None_iff in E. lia.
Qed.

Lemma sevenBits_all : forallb sevenBitsCheck (seq 0 128) = true.
Proof. vm_compute. reflexivity. Qed.

Lemma sevenBits b :
  b < 128 ->
  N.land 127 b = b /\ N.land b 128 = 0 /\ N.lor b 128 = b + 128
  /\ N.land 127 (b + 128) = b /\ N.land (b + 128) 128 <> 0.
Proof.
  intros Hb.
  pose proof (proj1 (forallb_forall _ _) sevenBits_all (N.to_nat b)) as H.
  assert (Hin : In (N.to_nat b) (seq 0 128)) by (apply in_seq; lia).
  specialize (H Hin). unfold sevenBitsCheck in H. rewrite N2Nat.id in H.
  repeat (apply andb_true_iff in H; destruct H as [H ?]).
  repeat match goal with
         | E : (_ =? _) = true |- _ => apply N.eqb_eq in E
         | E : negb (_ =? _) = true |- _ =>
             apply negb_true_iff in E; apply N.eqb_neq in E
         end.
  auto.
Qed.

Lemma low7 n : N.land n 127 = n mod 128.
Proof. change 127 with (N.ones 7). rewrite N.land_ones. reflexivity. Qed.

Lemma high_bits n : N.shiftr n 7 = n / 128.
Proof. rewrite N.shiftr_div_pow2. reflexivity. Qed.

Lemma testbit_above a s i : a < 2 ^ s -> s <= i -> N.testbit a i = false.
Proof.
  intros Ha Hi. rewrite <- (N.mod_small a (2 ^ s)) by exact Ha.
  apply N.mod_pow2_bits_high. exact Hi.
Qed.

(** Below [2 ^ s] and at or above it, bits do not meet: the [lor] of the
    loop is a sum. *)
Lemma lor_shifted a x s : a < 2 ^ s -> N.lor a (x * 2 ^ s) = a + x * 2 ^ s.
Proof.
  intros Ha.
  assert (Hdisj : N.land a (x * 2 ^ s) = 0).
  { apply N.bits_inj. intros i. rewrite N.land_spec, N.bits_0.
    rewrite <- N.shiftl_mul_pow2.
    destruct (N.lt_ge_cases i s) as [Hlt|Hge].
    - rewrite N.shiftl_spec_low by exact Hlt. apply andb_false_r.
    - rewrite (testbit_above Ha Hge). reflexivity. }
  rewrite N.add_nocarry_lxor by exact Hdisj.
  rewrite N.lxor_lor by exact Hdisj. reflexivity.
Qed.

Lemma lor_below_2_64 a b :
  a < uint64_modulus -> b < uint64_modulus -> N.lor a b < uint64_modulus.
Proof.
  unfold uint64_modulus. intros Ha Hb.
  assert (E : N.lor a b mod 2 ^ 64 = N.lor a b).
  { rewrite <- !N.land_ones, N.land_lor_distr_l, !N.land_ones.
    rewrite !N.mod_small by assumption. reflexivity. }
  rewrite <- E. apply N.mod_lt. discriminate.
Qed.

Lemma toLoop_range encoded : forall shift result n,
  result < uint64_modulus ->
  toLoop encoded shift result = Val n -> n < uint64_modulus.
Proof.
  induction encoded as [|b rest IH]; intros shift result n Hr; simpl;
    [discriminate|].
  assert (Hr' : N.lor result
                  (N.shiftl (N.land 127 (Byte.to_N b)) shift
                   mod uint64_modulus) < uint64_modulus).
  { apply lor_below_2_64; [exact Hr|]. apply N.mod_lt. discriminate. }
  destruct (_ =? 0).
  - intros E; inversion E; subst; exact Hr'.
  - apply IH. exact Hr'.
Qed.

Lemma ToUInt64_range encoded n :
  ToUInt64 encoded = Val n -> n < uint64_modulus.
Proof. apply toLoop_range. reflexivity. Qed.

Lemma toLoop_fromLoop fuel : forall n shift result,
  n < 128 ^ N.of_nat fuel -> (0 < fuel)%nat ->
  result < 2 ^ shift ->
  result + n * 2 ^ shift < uint64_modulus ->
  toLoop (fromLoop fuel n) shift result = Val (result + n * 2 ^ shift).
Proof.
  induction fuel as [|fuel IH]; intros n shift result Hn Hfuel Hres Hfit;
    [lia|].
  cbn [fromLoop]. rewrite low7, high_bits.
  assert (Hb : n mod 128 < 128) by (apply N.mod_lt; discriminate).
  assert (Hdiv : n = 128 * (n / 128) + n mod 128)
    by (apply N.div_mod; discriminate).
  destruct (sevenBits Hb) as (L1 & L2 & L3 & L4 & L5).
  assert (Hpow : 0 < 2 ^ shift) by (apply N.neq_0_lt_0, N.pow_nonzero; lia).
  destruct (N.eqb_spec (n / 128) 0) as [Hz|Hnz].
  - cbn [toLoop]. rewrite to_N_byteOf by lia. rewrite L1, L2. simpl.
    replace (n mod 128) with n in * by lia.
    rewrite N.shiftl_mul_pow2.
    rewrite N.mod_small by lia.
    rewrite lor_shifted by exact Hres. reflexivity.
  - cbn [toLoop]. rewrite L3. rewrite to_N_byteOf by lia. rewrite L4.
    apply N.eqb_neq in L5. rewrite L5.
    rewrite N.shiftl_mul_pow2.
    assert (Hn128 : n mod 128 * 2 ^ shift <= n * 2 ^ shift)
      by (apply N.mul_le_mono_r; lia).
    rewrite N.mod_small by lia.
    rewrite lor_shifted by exact Hres.
    assert (Hshift : 2 ^ (shift + 7) = 128 * 2 ^ shift)
      by (rewrite N.pow_add_r; change (2 ^ 7) with 128; lia).
    assert (Hsplit : n * 2 ^ shift
                     = n mod 128 * 2 ^ shift + n / 128 * 2 ^ (shift + 7))
      by (rewrite Hshift; nia).
    rewrite IH.
    + f_equal. lia.
    + rewrite Nat2N.inj_succ, N.pow_succ_r' in Hn.
      apply N.Div0.div_lt_upper_bound. exact Hn.
    + destruct fuel; [|lia]. simpl in Hn.
      exfalso. apply Hnz. apply N.div_small. exact Hn.
    + rewrite Hshift. nia.
    + lia.
Qed.

Lemma ToUInt64_FromUInt64 n :
  n < uint64_modulus -> ToUInt64 (FromUInt64 n) = Val n.
Proof.
  intros Hn. unfold ToUInt64, FromUInt64.
  rewrite toLoop_fromLoop.
  - f_equal. rewrite N.pow_0_r. lia.
  - eapply N.lt_trans; [exact Hn|]. reflexivity.
  - lia.
  - reflexivity.
  - rewrite N.pow_0_r. lia.
Qed.

End Leb128Properties.

Section Base32Properties.

Import base32.

Lemma quintetOfChar_charOfQuintet b4 b3 b2 b1 b0 :
  quintetOfChar (charOfQuintet b4 b3 b2 b1 b0) = Some [b4; b3; b2; b1; b0].
Proof. destruct b4, b3, b2, b1, b0; vm_compute; reflexivity. Qed.

Lemma octets_bitsOfByte b rest :
  octets (bitsOfByte b ++ rest) = b :: octets rest.
Proof.
  unfold bitsOfByte.
  destruct (Byte.to_bits b)
    as (b0 & b1 & b2 & b3 & b4 & b5 & b6 & b7) eqn:E.
  cbn [app octets]. f_equal.
  unfold byteOfBits. rewrite <- E. apply Byte.of_bits_to_bits.
Qed.

Lemma length_bitsOfByte b : length (bitsOfByte b) = 8%nat.
Proof.
  unfold bitsOfByte.
  destruct (Byte.to_bits b) as (b0 & b1 & b2 & b3 & b4 & b5 & b6 & b7).
  reflexivity.
Qed.

Lemma length_bits (x : list byte) :
  length (flat_map bitsOfByte x) = (8 * length x)%nat.
Proof.
  induction x as [|b x IH]; [reflexivity|].
  cbn [flat_map]. rewrite length_app, length_bitsOfByte, IH.
  cbn [length]. lia.
Qed.

(** Bits left over after the last whole byte are dropped. *)
Lemma octets_bits (x : list byte) (pad : list bool) :
  (length pad < 8)%nat -> octets (flat_map bitsOfByte x ++ pad) = x.
Proof.
  intros Hpad. induction x as [|b x IH].
  - cbn [flat_map app].
    do 8 (destruct pad as [|? pad]; [reflexivity|]).
    simpl in Hpad. lia.
  - cbn [flat_map]. rewrite <- app_assoc, octets_bitsOfByte, IH.
    reflexivity.
Qed.

(** Decoding the characters gives the bits back, with the zeros that
    filled up the last group. *)
Lemma bitsOfText_quintets (n : nat) : forall bits,
  (length bits <= n)%nat ->
  exists pad, (length pad < 5)%nat
              /\ bitsOfText (quintets bits) = Some (bits ++ pad).
Proof.
  induction n as [|n IH]; intros bits Hlen.
  - destruct bits; [|simpl in Hlen; lia]. exists []. split; [simpl; lia|].
    reflexivity.
  - destruct bits as [|b4 [|b3 [|b2 [|b1 [|b0 rest]]]]].
    + exists []. split; [simpl; lia|reflexivity].
    + exists [false; false; false; false]. split; [simpl; lia|].
      cbn [quintets bitsOfText]. rewrite quintetOfChar_charOfQuintet.
      reflexivity.
    + exists [false; false; false]. split; [simpl; lia|].
      cbn [quintets bitsOfText]. rewrite quintetOfChar_charOfQuintet.
      reflexivity.
    + exists [false; false]. split; [simpl; lia|].
      cbn [quintets bitsOfText]. rewrite quintetOfChar_charOfQuintet.
      reflexivity.
    + exists [false]. split; [simpl; lia|].
      cbn [quintets bitsOfText]. rewrite quintetOfChar_charOfQuintet.
      reflexivity.
    + destruct (IH rest) as (pad & Hpad & E); [simpl in Hlen; lia|].
      exists pad. split; [exact Hpad|].
      cbn [quintets bitsOfText]. rewrite quintetOfChar_charOfQuintet, E.
      reflexivity.
Qed.

Lemma length_quintets (n : nat) : forall bits,
  (length bits <= n)%nat ->
  String.length (quintets bits) = ((length bits + 4) / 5)%nat.
Proof.
  induction n as [|n IH]; intros bits Hlen.
  - destruct bits; [reflexivity|simpl in Hlen; lia].
  - destruct bits as [|b4 [|b3 [|b2 [|b1 [|b0 rest]]]]];
      try reflexivity.
    cbn [quintets String.length length].
    rewrite IH by (simpl in Hlen; lia).
    replace (S (S (S (S (S (length rest))))) + 4)%nat
      with (length rest + 4 + 1 * 5)%nat by lia.
    rewrite Nat.div_add by discriminate. lia.
Qed.

Lemma DecodeString_EncodeToString (x : list byte) :
  DecodeString (EncodeToString x) = (x, None).
Proof.
  unfold DecodeString, EncodeToString.
  destruct (@bitsOfText_quintets (length (flat_map bitsOfByte x))
              (flat_map bitsOfByte x) (le_n _)) as (pad & Hpad & ->).
  rewrite octets_bits by lia. reflexivity.
Qed.

Lemma EncodeToString_length (x : list byte) :
  String.length (EncodeToString x) = ((8 * length x + 4) / 5)%nat.
Proof.
  unfold EncodeToString.
  rewrite (@length_quintets (length (flat_map bitsOfByte x))) by apply le_n.
  rewrite length_bits. reflexivity.
Qed.

End Base32Properties.

Section GoDepsProperties.

Lemma blake2b_digest_length size ingest :
  length (blake2b.digest size ingest) = size.
Proof. unfold blake2b.digest. rewrite length_map, length_seq. reflexivity. Qed.

(** The package as deployed satisfies the laws of the codec. *)
Lemma goDeps_laws : address.DepsLaws goDeps.
Proof.
  constructor; cbn.
  - reflexivity.
  - intros s; discriminate.
  - repeat split;
      repeat match goal with
             | |- context [(?a / ?b)%nat] =>
                 let v := eval vm_compute in (a / b)%nat in
                 change (a / b)%nat with v
             end; lia.
  - apply DecodeString_EncodeToString.
  - apply EncodeToString_length.
  - lia.
  - exists (blake2b.digest 4). split; [reflexivity|].
    intros x. apply blake2b_digest_length.
  - intros p n. apply ToUInt64_range.
  - intros n. apply ToUInt64_FromUInt64.
Qed.

End GoDepsProperties.

(* ================================================================= *)
(** ** The properties at work in the small world *)

Section Instances.

Import context types consensus mining.

Let goodWorker := demo.worker demo.stateTreeOK demo.mockSigner.
Let failingWorker := demo.worker demo.stateTreeBoom demo.mockSigner.

(** A won round whose block assembly fails: one [Output], [true]. *)
Lemma Mine_winner_emits_generate_result_witness :
  demo.mine goodWorker Background demo.base 2 false
    = mkRun [ {| NewBlock := None; Err := Some "get state tree"%string |} ]
            (Returned true ExitWinner).
Proof.
  refine (@Mine_winner_emits_generate_result unit unit unit unit unit unit
            192 32 demo.seedOf demo.alwaysWins demo.generateFails
            goodWorker Background demo.base 2 false (Some tt) _ _
            _ _ _ _ _ _ _);
    try reflexivity; unfold demo.base; discriminate.
Defined.

(** C3, the claim as it was stated fails: the context is cancelled at
    entry and the base tipset has a block, yet the error of the failed
    state-tree fetch is sent on the channel. *)
Lemma Mine_cancelled_at_entry_counterexample :
  let r := demo.mine failingWorker demo.cancelled demo.base 2 false in
  ctxErr demo.cancelled 0 <> None
  /\ demo.base <> []
  /\ outCh r = [ {| NewBlock := None;
                    Err := Some "boom no more state trees"%string |} ]
  /\ outCh r <> [].
Proof.
  cbv zeta. repeat split; discriminate.
Qed.

Lemma Mine_cancelled_at_entry_witness :
  demo.mine goodWorker demo.cancelled demo.base 2 false
    = mkRun [] (Returned false ExitCtxErr).
Proof.
  refine (@Mine_cancelled_at_entry unit unit unit unit unit unit
            192 32 demo.seedOf demo.alwaysWins demo.generateFails
            goodWorker demo.cancelled demo.base 2 false _ _ _);
    try reflexivity; unfold demo.base; discriminate.
Defined.

Lemma CreateTicket_sign_error_panics_witness :
  CreateTicket [x01; x02] demo.minerID demo.brokenSigner
    = Panic "SignBytes error in CreateTicket: missing key"
  /\ forall ticket,
       CreateTicket [x01; x02] demo.minerID demo.brokenSigner <> Val ticket.
Proof.
  pose proof (@CreateTicket_sign_error_panics unit unit unit unit unit unit
                192 demo.alwaysWins demo.generateFails
                [x01; x02] demo.minerID demo.brokenSigner []
                "missing key"%string eq_refl) as (H1 & H2 & _).
  exact (conj H1 H2).
Defined.

Lemma CreateTicket_is_signature_over_proof_witness :
  CreateTicket [x01; x02] demo.minerID demo.mockSigner
    = Val (str demo.minerID ++ [x01; x02])
  /\ forall verify : list byte -> Address -> list byte -> bool,
       (forall data a sg, SignBytes demo.mockSigner data a = (sg, None) ->
                          verify data a sg = true) ->
       verify [x01; x02] demo.minerID (str demo.minerID ++ [x01; x02]) = true.
Proof.
  exact (@CreateTicket_is_signature_over_proof [x01; x02] demo.minerID
           demo.mockSigner _ eq_refl).
Defined.


(** C8, the claim as it was stated fails at the top of the range: over
    a parent of height [2^64 - 1] the child gets height [0], not
    [2^64]. *)
Lemma MkFakeChildCore_height_counterexample :
  Height [demo.lastBlock] = ((2 ^ 64 - 1)%N, None)
  /\ exists blk,
       chain.MkFakeChildCore demo.toSortedCidSet [demo.lastBlock]
         None None 0 0 demo.weigh = Val (Some blk, None)
       /\ types.Height blk = 0%N
       /\ types.Height blk <> (2 ^ 64 - 1 + 1 + 0)%N.
Proof.
  split; [reflexivity|].
  eexists. split; [reflexivity|]. split; [reflexivity|]. discriminate.
Qed.

(** The scenario of the specification: height 5, two null blocks. *)
Lemma MkFakeChildCore_height_and_weight_witness :
  exists blk,
    chain.MkFakeChildCore demo.toSortedCidSet demo.base None None 0 2
      demo.weigh = Val (Some blk, None)
    /\ types.Height blk = ((5 + 1 + 2) mod 2 ^ 64)%N
    /\ ((5 + 1 + 2 < 2 ^ 64)%N -> types.Height blk = (5 + 1 + 2)%N)
    /\ ParentWeightNum blk = 11%N
    /\ ParentWeightDenom blk = 1%N.
Proof.
  exact (@MkFakeChildCore_height_and_weight demo.toSortedCidSet demo.base
           None None 0 2 demo.weigh 11 1 5 eq_refl eq_refl).
Defined.

Lemma address_string_roundtrip_witness :
  exists s, address.String_ goDeps demo.secpAddr = Val s
            /\ address.NewFromString goDeps s = Val (demo.secpAddr, None).
Proof.
  exact (@address_string_roundtrip goDeps goDeps_laws demo.secpAddr eq_refl).
Defined.

(** [newAddress] does not look at the payload of an ID address: bytes
    that are not the LEB128 text of a number make an address all the
    same, which is not well formed and comes back changed. *)
Lemma ID_payload_unchecked :
  address.NewFromBytes goDeps [x00; x80; x00]
    = (mkAddress [x00; x80; x00], None)
  /\ address.wellFormed goDeps (mkAddress [x00; x80; x00]) = false
  /\ address.String_ goDeps (mkAddress [x00; x80; x00]) = Val "t00"%string
  /\ address.NewFromString goDeps "t00" = Val (mkAddress [x00; x00], None).
Proof. repeat split; vm_compute; reflexivity. Qed.

(** The same for an ID address. *)
Lemma address_string_roundtrip_ID :
  address.String_ goDeps demo.minerID = Val "t01234"%string
  /\ address.NewFromString goDeps "t01234" = Val (demo.minerID, None).
Proof. split; vm_compute; reflexivity. Qed.

End Instances.

(* ================================================================= *)
(** * Further properties of the code *)

(* ================================================================= *)
(** ** The mining worker, path by path *)

Section MiningPaths.

Import context types consensus mining.

Variables StateTree MessagePool MessageApplier PowerTableView
          Blockstore CborIpldStore : Type.
Variables PoStProofLen PoStChallengeSeedLen : nat.

Let Worker := DefaultWorker StateTree MessagePool MessageApplier
                PowerTableView Blockstore CborIpldStore.

Variable CreateChallengeSeed :
  TipSet -> N -> PoStChallengeSeed * option error.
Variable IsWinningTicket :
  Context -> Blockstore -> PowerTableView -> option StateTree ->
  list byte -> Address -> bool * option error.
Variable Generate :
  Worker -> Context -> TipSet -> list byte -> PoStProof -> N ->
  option Block * option error.

Let Mine := Mine PoStProofLen PoStChallengeSeedLen CreateChallengeSeed
              IsWinningTicket Generate.

(** X1.  Whenever [Mine] returns [false], whatever it sent on the
    channel is an error [Output]: no block, and an error that is not
    nil. *)
Theorem Mine_false_sends_only_errors (w : Worker) ctx base n pick exit o :
  outcome (Mine w ctx base n pick) = Returned false exit ->
  In o (outCh (Mine w ctx base n pick)) ->
  NewBlock o = None /\ Err o <> None.
Proof.
  unfold Mine, mining.Mine, mining.mineSelected.
  split_matches; simpl; intros Hout Hin;
    try discriminate Hout; try contradiction;
    destruct Hin as [<-|[]]; simpl; split; try reflexivity; discriminate.
Qed.

(** X2.  [Mine] returns [true] only through the winner branch, and then
    it has sent exactly one [Output]. *)
Theorem Mine_true_only_as_winner (w : Worker) ctx base n pick exit :
  outcome (Mine w ctx base n pick) = Returned true exit ->
  exit = ExitWinner
  /\ exists o, outCh (Mine w ctx base n pick) = [o].
Proof.
  unfold Mine, mining.Mine, mining.mineSelected.
  split_matches; simpl; intros Hout; inversion Hout; subst.
  split; [reflexivity|]. eexists; reflexivity.
Qed.



(** X5.  The [select] of [Mine] never commits to a case, so that
    [Mine] waits in it for ever, exactly when the proof never completes
    and the context is never cancelled; and a call of [Mine] ends up
    waiting in its [select] exactly when, moreover, it gets that far:
    the tipset has a block and the state-tree fetch and the seed
    derivation succeed.  (Sends on the output channel and calls of
    collaborators are taken to complete; a wait in one of those is not
    what this is about.) *)
Theorem Mine_select_waits_for_ever_iff (w : Worker) ctx base n pick :
  (forall seed,
      selectDoneOrRecv (zeroBytes PoStChallengeSeedLen) ctx
        (createProof seed (createPoSTFunc w) tickSelect) pick = NoCase
      <-> (createPoSTFunc w = None /\ cancelledAt ctx = None))
  /\ (outcome (Mine w ctx base n pick) = Blocked
      <-> (base <> []
           /\ snd (getStateTree w ctx base) = None
           /\ snd (CreateChallengeSeed base (uint64_of_int n)) = None
           /\ createPoSTFunc w = None
           /\ cancelledAt ctx = None)).
Proof.
  split.
  { intros seed. unfold selectDoneOrRecv, createProof, recvReady.
    destruct (createPoSTFunc w) as [d|], (cancelledAt ctx) as [c|];
      split_matches; split; try (intros H; discriminate H);
      try (intros (H1 & H2); discriminate);
      intros; split; reflexivity. }
  unfold Mine, mining.Mine, mining.mineSelected, ctxErr, createProof,
    selectDoneOrRecv, recvReady.
  destruct base as [|b0 base].
  { simpl. split; [intros H; discriminate H|]. intros (H & _); congruence. }
  cbn [length Nat.eqb].
  destruct (getStateTree w ctx (b0 :: base)) as [st [e|]];
    cbn [snd outcome];
    [split; [intros H; discriminate H|];
     intros (_ & H & _); discriminate H|].
  destruct (cancelledAt ctx) as [c|].
  { split; [|intros (_ & _ & _ & _ & H); discriminate H].
    destruct (c <=? tickCtxErr)%nat; [simpl; intros H; discriminate H|].
    destruct (CreateChallengeSeed (b0 :: base) (uint64_of_int n))
      as [seed [e|]]; [simpl; intros H; discriminate H|].
    destruct (createPoSTFunc w) as [d|];
      [|simpl; intros H; discriminate H].
    destruct (c <? tickSelect + d)%nat; [simpl; intros H; discriminate H|].
    destruct (tickSelect + d <? c)%nat;
      [|destruct pick; [simpl; intros H; discriminate H|]];
      split_matches; simpl; intros H; discriminate H. }
  destruct (CreateChallengeSeed (b0 :: base) (uint64_of_int n))
    as [seed [e|]]; cbn [snd].
  { split; [|intros (_ & _ & H & _); discriminate H].
    simpl; intros H; discriminate H. }
  destruct (createPoSTFunc w) as [d|].
  { split; [|intros (_ & _ & _ & H & _); discriminate H].
    split_matches; simpl; intros H; discriminate H. }
  simpl. split; [|reflexivity]. intros _.
  repeat split; discriminate.
Qed.

(** X6.  Under a context that is never cancelled [Mine] leaves through
    neither of its cancellation returns. *)
Theorem Mine_no_cancellation_no_cancel_exit (w : Worker) ctx base n pick b :
  cancelledAt ctx = None ->
  outcome (Mine w ctx base n pick) <> Returned b ExitCtxErr
  /\ outcome (Mine w ctx base n pick) <> Returned b ExitCtxDone.
Proof.
  intros Hc.
  unfold Mine, mining.Mine, ctxErr, selectDoneOrRecv, createProof.
  rewrite Hc.
  destruct base as [|b0 base]; [simpl; split; discriminate|].
  cbn [length Nat.eqb].
  destruct (getStateTree w ctx (b0 :: base)) as [st [e|]];
    [simpl; split; discriminate|].
  destruct (CreateChallengeSeed (b0 :: base) (uint64_of_int n))
    as [seed [e|]]; [simpl; split; discriminate|].
  destruct (createPoSTFunc w) as [d|]; [|simpl; split; discriminate].
  unfold mining.mineSelected; simpl.
  split_matches; simpl; split; discriminate.
Qed.

(** X7.  The worker [NewDefaultWorker] makes has its proof ready one
    block time after the [select] begins: a cancellation that comes
    after the [ctx.Err()] test and before that moment makes [Mine]
    return [false] with nothing sent. *)
Theorem NewDefaultWorker_cancelled_within_block_time
    mp (gst : GetStateTree StateTree) gw pr pt bs cst miner sg bt
    ctx base n pick c st challenge :
  let w : Worker := NewDefaultWorker mp gst gw pr pt bs cst miner sg bt in
  base <> [] ->
  gst ctx base = (st, None) ->
  CreateChallengeSeed base (uint64_of_int n) = (challenge, None) ->
  cancelledAt ctx = Some c ->
  (tickCtxErr < c < tickSelect + bt)%nat ->
  Mine w ctx base n pick = mkRun [] (Returned false ExitCtxDone).
Proof.
  intros w Hb Hst Hseed Hc Hrange.
  unfold Mine, mining.Mine.
  destruct base; [congruence|]; simpl.
  rewrite Hst. unfold ctxErr. rewrite Hc.
  replace (c <=? tickCtxErr)%nat with false
    by (symmetry; apply Nat.leb_gt; lia).
  rewrite Hseed. unfold createProof, fakeCreatePoST; simpl.
  unfold selectDoneOrRecv. rewrite Hc; simpl.
  replace (c <? S (S bt))%nat with true
    by (symmetry; apply Nat.ltb_lt; unfold tickSelect in Hrange; lia).
  reflexivity.
Qed.

(** X8.  For the worker [NewDefaultWorker] makes the [select] of
    [Mine] always commits to a case, since the stand-in for the proof
    returns after the block time and the proof channel then delivers: a
    call of [Mine] does not end up waiting in its [select].  (Sends on
    the output channel and calls of collaborators are taken to
    complete; a wait in one of those is not what this is about.) *)
Theorem NewDefaultWorker_select_commits
    mp (gst : GetStateTree StateTree) gw pr pt bs cst miner sg bt
    ctx base n pick :
  (forall seed,
      selectDoneOrRecv (zeroBytes PoStChallengeSeedLen) ctx
        (createProof seed
           (createPoSTFunc
              (NewDefaultWorker mp gst gw pr pt bs cst miner sg bt))
           tickSelect) pick <> NoCase)
  /\ outcome (Mine (NewDefaultWorker mp gst gw pr pt bs cst miner sg bt)
                   ctx base n pick) <> Blocked.
Proof.
  split.
  { intros seed. unfold selectDoneOrRecv, createProof, recvReady; simpl.
    split_matches; discriminate. }
  unfold Mine, mining.Mine, selectDoneOrRecv, createProof, ctxErr.
  destruct base as [|b0 base]; [simpl; discriminate|].
  cbn [length Nat.eqb].
  cbn [NewDefaultWorker NewDefaultWorkerWithDeps setCreatePoSTFunc
       fakeCreatePoST getStateTree createPoSTFunc blockTime].
  destruct (gst ctx (b0 :: base)) as [st [e|]]; [simpl; discriminate|].
  destruct (cancelledAt ctx) as [c|].
  - destruct (c <=? tickCtxErr)%nat; [simpl; discriminate|].
    destruct (CreateChallengeSeed (b0 :: base) (uint64_of_int n))
      as [seed [e|]]; [simpl; discriminate|].
    cbn [recvReady].
    destruct (c <? tickSelect + bt)%nat; [simpl; discriminate|].
    destruct (tickSelect + bt <? c)%nat;
      [|destruct pick; [simpl; discriminate|]];
      unfold mining.mineSelected; cbn [negb];
      split_matches; simpl; discriminate.
  - destruct (CreateChallengeSeed (b0 :: base) (uint64_of_int n))
      as [seed [e|]]; [simpl; discriminate|].
    unfold mining.mineSelected; cbn [recvReady negb].
    split_matches; simpl; discriminate.
Qed.

End MiningPaths.

(* ================================================================= *)
(** ** The fake-chain helpers, beyond height and weight *)

Section ChainPaths.

Import context types consensus chain.

Variable ToSortedCidSet : TipSet -> SortedCidSet.

(** When the weight function fails, [MkFakeChildCore] returns its
    error and no block, without looking at the height of the parent. *)
Lemma MkFakeChildCore_weight_error
    (parent : TipSet) genCid stateRoot nonce n wFun nW dW e :
  wFun parent = (nW, dW, Some e) ->
  MkFakeChildCore ToSortedCidSet parent genCid stateRoot nonce n wFun
    = Val (None, Some e).
Proof. intros H. unfold MkFakeChildCore. rewrite H. reflexivity. Qed.

(** X9.  The block [MkFakeChildCore] returns has the sorted CIDs of the
    parent as its parents, the nonce it was given, no miner address, and
    as state root the one it was given or, for a nil one, the state root
    of the first block of the parent. *)
Theorem MkFakeChildCore_block_fields
    (parent : TipSet) genCid stateRoot nonce n wFun blk :
  MkFakeChildCore ToSortedCidSet parent genCid stateRoot nonce n wFun
    = Val (Some blk, None) ->
  Parents blk = ToSortedCidSet parent
  /\ Nonce blk = nonce
  /\ Miner blk = Undef
  /\ StateRoot blk = match stateRoot with
                     | Some r => Some r
                     | None => match ToSlice parent with
                               | b0 :: _ => StateRoot b0
                               | [] => None
                               end
                     end.
Proof.
  unfold MkFakeChildCore.
  destruct (wFun parent) as [[nW dW] [e|]]; [discriminate|].
  destruct (Height parent) as [h [e|]]; [discriminate|].
  destruct stateRoot; [|destruct (ToSlice parent); [discriminate|]];
    intros E; inversion E; subst; simpl; auto.
Qed.

(** X10.  When [MkFakeChildCore] returns, it returns either a block and
    no error or an error and no block. *)
Theorem MkFakeChildCore_block_xor_error
    (parent : TipSet) genCid stateRoot nonce n wFun r :
  MkFakeChildCore ToSortedCidSet parent genCid stateRoot nonce n wFun
    = Val r ->
  (exists blk, r = (Some blk, None)) \/ (exists e, r = (None, Some e)).
Proof.
  unfold MkFakeChildCore.
  destruct (wFun parent) as [[nW dW] [e|]];
    [intros E; inversion E; eauto|].
  destruct (Height parent) as [h [e|]];
    [intros E; inversion E; eauto|].
  destruct stateRoot; [|destruct (ToSlice parent); [discriminate|]];
    intros E; inversion E; eauto.
Qed.

(** [MkFakeChildWithCon] uses the consensus protocol for one thing
    only, the weight of the parent under the background context and a nil
    state: two protocols that agree on it give the same child. *)
Lemma MkFakeChildWithCon_depends_on_parent_weight (StateTree : Type)
    (parent : TipSet) genCid stateRoot nonce n
    (con1 con2 : Protocol StateTree) :
  Weight con1 Background parent None = Weight con2 Background parent None ->
  MkFakeChildWithCon ToSortedCidSet parent genCid stateRoot nonce n con1
  = MkFakeChildWithCon ToSortedCidSet parent genCid stateRoot nonce n con2.
Proof.
  intros H. unfold MkFakeChildWithCon, MkFakeChildCore. rewrite H.
  reflexivity.
Qed.

End ChainPaths.

Section WinnersCount.

Import chainRandom.
Local Open Scope Z_scope.

Lemma countWins_bounds rounds : forall i below wins,
  wins <= countWins rounds i below wins <= wins + Z.of_nat rounds.
Proof.
  induction rounds as [|rounds IH]; intros i below wins.
  - simpl. lia.
  - cbn [countWins]. specialize (IH (S i) below).
    destruct (below i);
      [specialize (IH (wins + 1))|specialize (IH wins)]; lia.
Qed.

Lemma countWins_all rounds : forall i below wins,
  (forall j, below j = true) ->
  countWins rounds i below wins = wins + Z.of_nat rounds.
Proof.
  induction rounds as [|rounds IH]; intros i below wins Hall.
  - simpl. lia.
  - cbn [countWins]. rewrite Hall, IH by exact Hall. lia.
Qed.

Lemma countWins_none rounds : forall i below wins,
  (forall j, below j = false) ->
  countWins rounds i below wins = wins.
Proof.
  induction rounds as [|rounds IH]; intros i below wins Hnone.
  - reflexivity.
  - cbn [countWins]. rewrite Hnone. apply IH, Hnone.
Qed.

(** X11.  [getWinningMinerCount(n, p)] lies between zero and [n], and is
    zero for an [n] that is zero or negative; it is [n] when every draw
    is below [p] and zero when none is. *)
Theorem getWinningMinerCount_bounds (n : Z) (below : nat -> bool) :
  0 <= getWinningMinerCount n below <= Z.max 0 n
  /\ ((forall j, below j = true) ->
      getWinningMinerCount n below = Z.max 0 n)
  /\ ((forall j, below j = false) -> getWinningMinerCount n below = 0).
Proof.
  unfold getWinningMinerCount.
  pose proof (countWins_bounds (Z.to_nat n) 0 below 0) as H.
  repeat split.
  - lia.
  - lia.
  - intros Hall. rewrite countWins_all by exact Hall. lia.
  - intros Hnone. apply countWins_none, Hnone.
Qed.

End WinnersCount.

(* ================================================================= *)
(** ** The address package, beyond the round trip of well-formed
       addresses *)

Section DecimalRange.

Import strconv.
Local Open Scope N_scope.

Lemma parseDigits_range s : forall acc n,
  acc < uint64_modulus -> parseDigits s acc = Some n -> n < uint64_modulus.
Proof.
  induction s as [|c s IH]; intros acc n Hacc; simpl.
  - intros E; inversion E; subst; exact Hacc.
  - destruct (digitValue c) as [d|]; [|discriminate].
    destruct (N.ltb_spec (acc * 10 + d) uint64_modulus) as [Hlt|];
      [|discriminate].
    apply IH. exact Hlt.
Qed.

(** What [ParseUint] accepts fits in 64 bits. *)
Lemma ParseUint_range s n : ParseUint s = Some n -> n < uint64_modulus.
Proof.
  unfold ParseUint. destruct s; [discriminate|].
  apply parseDigits_range. reflexivity.
Qed.

End DecimalRange.

Section AddressEdges.

Import address.

Variable D : Deps.

Lemma newAddress_shape (protocol : Protocol) (payload : list byte) :
  match newAddress D protocol payload with
  | (a, None) => str a = protocol :: payload
                 /\ In protocol [ID; SECP256K1; Actor; BLS]
  | (a, Some _) => a = Undef
  end.
Proof.
  unfold newAddress, ID, SECP256K1, Actor, BLS.
  destruct protocol; try reflexivity;
    try (destruct (negb _); [reflexivity|]);
    split; try reflexivity; simpl; auto.
Qed.

(** X12.  [newAddress] returns either an address made of the protocol
    byte and the payload, for one of the four protocols, and no error,
    or [Undef] and an error; for the ID protocol it never refuses a
    payload. *)
Theorem newAddress_result (protocol : Protocol) (payload : list byte) :
  match newAddress D protocol payload with
  | (a, None) => str a = protocol :: payload
                 /\ In protocol [ID; SECP256K1; Actor; BLS]
  | (a, Some _) => a = Undef
  end
  /\ newAddress D ID payload = (mkAddress (ID :: payload), None).
Proof. split; [apply newAddress_shape|reflexivity]. Qed.

(** X13.  The bytes of an address go back to the address through
    [NewFromBytes] exactly when the payload is not empty: [Undef] and
    every address [newAddress] made from a payload of at least one byte
    come back, the ID address with an empty payload is refused. *)
Theorem NewFromBytes_Bytes (protocol : Protocol) payload a :
  newAddress D protocol payload = (a, None) ->
  NewFromBytes D (Bytes Undef) = (Undef, None)
  /\ (payload <> [] -> NewFromBytes D (Bytes a) = (a, None))
  /\ (payload = [] ->
      NewFromBytes D (Bytes a) = (Undef, Some ErrInvalidLength)).
Proof.
  intros Hnew.
  pose proof (newAddress_shape protocol payload) as Hres.
  rewrite Hnew in Hres. destruct Hres as (Hstr & _).
  unfold Bytes. rewrite Hstr. split; [reflexivity|]. split.
  - intros Hne. destruct payload as [|b rest]; [congruence|].
    cbn [NewFromBytes]. exact Hnew.
  - intros ->. reflexivity.
Qed.

(** X14.  The undefined address has the text [EmptyAddressString] on
    every network, known or not, and that text, like the empty text,
    decodes to the undefined address without an error. *)
Theorem Undef_text (network : Network) :
  encode D network Undef = Val (EmptyAddressString D, None)
  /\ String_ D Undef = Val (EmptyAddressString D)
  /\ decode D (EmptyAddressString D) = Val (Undef, None)
  /\ decode D EmptyString = Val (Undef, None).
Proof.
  repeat split; try reflexivity.
  unfold decode.
  destruct (String.length (EmptyAddressString D) =? 0)%nat; [reflexivity|].
  rewrite String.eqb_refl. reflexivity.
Qed.

(** X15.  A text that is neither empty nor [EmptyAddressString] and is
    shorter than three characters or longer than
    [MaxAddressStringLength] is refused with [ErrInvalidLength]. *)
Theorem decode_invalid_length (s : string) :
  s <> EmptyString ->
  s <> EmptyAddressString D ->
  (String.length s < 3 \/ MaxAddressStringLength D < String.length s)%nat ->
  decode D s = Val (Undef, Some ErrInvalidLength).
Proof.
  intros Hne Hnempty Hlen. unfold decode.
  destruct s as [|c s]; [congruence|].
  cbn [String.length Nat.eqb].
  destruct (String.eqb_spec (String c s) (EmptyAddressString D));
    [congruence|].
  replace ((MaxAddressStringLength D <? S (String.length s))
           || (S (String.length s) <? 3))%nat with true; [reflexivity|].
  symmetry. apply orb_true_iff.
  cbn [String.length] in Hlen.
  destruct Hlen as [H|H]; [right|left]; apply Nat.ltb_lt; exact H.
Qed.


(** X17.  The letter of the network is not kept: a text with the letter
    of the main network decodes to what the same text with the letter
    of the test network decodes to. *)
Theorem decode_network_letter (rest : string) :
  String "f" rest <> EmptyAddressString D ->
  String "t" rest <> EmptyAddressString D ->
  decode D (String "f" rest) = decode D (String "t" rest).
Proof.
  intros Hf Ht. unfold decode.
  cbn [String.length Nat.eqb].
  destruct (String.eqb_spec (String "f" rest) (EmptyAddressString D));
    [congruence|].
  destruct (String.eqb_spec (String "t" rest) (EmptyAddressString D));
    [congruence|].
  destruct ((MaxAddressStringLength D <? S (String.length rest))
            || (S (String.length rest) <? 3))%nat; [reflexivity|].
  destruct rest as [|a1 raw]; reflexivity.
Qed.

(** X18.  [decode] panics on a text whose base32 part decodes to fewer
    bytes than a checksum has: the slice that should cut the checksum
    off gets a negative bound. *)
Theorem decode_short_payload_panics
    (a0 a1 : ascii) (raw : string) protocol payloadcksm :
  String a0 (String a1 raw) <> EmptyAddressString D ->
  (1 <= String.length raw)%nat ->
  (2 + String.length raw <= MaxAddressStringLength D)%nat ->
  a0 = "f"%char \/ a0 = "t"%char ->
  protocolOfChar a1 = Some protocol ->
  protocol <> ID ->
  DecodeString D raw = (payloadcksm, None) ->
  (length payloadcksm < ChecksumHashLength D)%nat ->
  decode D (String a0 (String a1 raw)) = Panic "slice bounds out of range".
Proof.
  intros Hnempty Hlo Hhi Hnet Hp Hnid Hdec Hshort. unfold decode.
  cbn [String.length Nat.eqb].
  destruct (String.eqb_spec (String a0 (String a1 raw))
              (EmptyAddressString D)); [congruence|].
  replace (MaxAddressStringLength D <? S (S (String.length raw)))%nat
    with false by (symmetry; apply Nat.ltb_ge; simpl in Hhi; lia).
  replace (S (S (String.length raw)) <? 3)%nat
    with false by (symmetry; apply Nat.ltb_ge; lia).
  cbn [orb].
  replace (negb (String a0 EmptyString =? MainnetPrefix)%string
           && negb (String a0 EmptyString =? TestnetPrefix)%string)
    with false by (destruct Hnet as [-> | ->]; reflexivity).
  rewrite Hp.
  replace (Byte.eqb protocol ID) with false.
  2:{ symmetry. destruct (Byte.eqb protocol ID) eqn:E; [|reflexivity].
      apply Byte.byte_dec_bl in E. contradiction. }
  rewrite Hdec.
  replace (length payloadcksm <? ChecksumHashLength D)%nat with true
    by (symmetry; apply Nat.ltb_lt; exact Hshort).
  reflexivity.
Qed.

(** X19.  An ID address whose payload the LEB128 decoder cannot read is
    accepted by [NewFromBytes] all the same, and [String] panics on
    it. *)
Theorem String_panics_on_unreadable_ID (b : byte) (rest : list byte) msg :
  leb128_ToUInt64 D (b :: rest) = Panic msg ->
  NewFromBytes D (ID :: b :: rest) = (mkAddress (ID :: b :: rest), None)
  /\ String_ D (mkAddress (ID :: b :: rest)) = Panic msg.
Proof.
  intros H. split; [reflexivity|].
  unfold String_, encode, Testnet, ID. cbn [str]. rewrite H. reflexivity.
Qed.

End AddressEdges.

Section AddressLaws.

Import address.

Variable D : Deps.
Hypothesis laws : DepsLaws D.

(** A well-formed address has a text, and the text decodes to it. *)
Lemma wellFormed_text_decodes (a : Address) :
  wellFormed D a = true ->
  exists s, String_ D a = Val s /\ decode D s = Val (a, None).
Proof.
  unfold wellFormed.
  destruct a as [[|p payload]]; cbn [str]; [discriminate|].
  intros H.
  destruct FormatUint_protocol_digit as (_ & F1 & F2 & F3).
  pose proof (law_payload_hash_length laws) as Hphl.
  destruct p; cbn [validPayload] in H; try discriminate H.
  - apply (roundtrip_ID laws). exact H.
  - rewrite Hphl in H. pose proof H as Hn. apply Nat.eqb_eq in Hn.
    apply (@roundtrip_hashed D laws x01 "1"); auto; try discriminate.
    unfold newAddress. rewrite Hphl, H. reflexivity.
  - rewrite Hphl in H. pose proof H as Hn. apply Nat.eqb_eq in Hn.
    apply (@roundtrip_hashed D laws x02 "2"); auto; try discriminate.
    unfold newAddress. rewrite Hphl, H. reflexivity.
  - pose proof H as Hn. apply Nat.eqb_eq in Hn.
    apply (@roundtrip_hashed D laws x03 "3"); auto; try discriminate.
    unfold newAddress. rewrite H. reflexivity.
Qed.

(** X20.  Two well-formed addresses with the same text are the same
    address. *)
Theorem String_injective (a b : Address) :
  wellFormed D a = true ->
  wellFormed D b = true ->
  String_ D a = String_ D b ->
  a = b.
Proof.
  intros Ha Hb Heq.
  destruct (wellFormed_text_decodes a Ha) as (sa & Hsa & Hda).
  destruct (wellFormed_text_decodes b Hb) as (sb & Hsb & Hdb).
  rewrite Hsa, Hsb in Heq. inversion Heq; subst sb.
  rewrite Hda in Hdb. inversion Hdb. reflexivity.
Qed.

(** X21.  What [decode] returns without an error is the undefined
    address or a well-formed one. *)
Theorem decode_returns_wellFormed (s : string) (a : Address) :
  decode D s = Val (a, None) ->
  a = Undef \/ wellFormed D a = true.
Proof.
  unfold decode.
  destruct (String.length s =? 0)%nat;
    [intros E; inversion E; auto|].
  destruct (String.eqb s (EmptyAddressString D));
    [intros E; inversion E; auto|].
  destruct (_ || _)%bool; [discriminate|].
  destruct s as [|a0 [|a1 raw]]; try discriminate.
  destruct (_ && _)%bool; [discriminate|].
  destruct (protocolOfChar a1) as [protocol|] eqn:Hp; [|discriminate].
  destruct (Byte.eqb protocol ID) eqn:Hid.
  - apply Byte.byte_dec_bl in Hid. subst protocol.
    destruct (strconv.ParseUint raw) as [id|] eqn:Hparse; [|discriminate].
    intros E. right.
    assert (Hnew : NewIDAddress D id = (a, None))
      by (unfold NewIDAddress; congruence).
    apply ParseUint_range in Hparse.
    destruct (NewIDAddress_wellFormed laws Hparse) as (a' & Ha' & Hwf).
    rewrite Hnew in Ha'. inversion Ha'; subst a'. exact Hwf.
  - destruct (DecodeString D raw) as [payloadcksm [e|]]; [discriminate|].
    destruct (_ <? _)%nat; [discriminate|].
    cbv zeta.
    destruct (_ && _)%bool; [discriminate|].
    destruct (ValidateChecksum D _ _) as [[|]|]; try discriminate.
    intros E. right.
    assert (Hnew : newAddress D protocol
                     (firstn (length payloadcksm - ChecksumHashLength D)
                             payloadcksm) = (a, None)) by congruence.
    eapply newAddress_wellFormed; [|exact Hnew].
    intros ->. discriminate Hid.
Qed.

(** X22.  A text whose checksum bytes are not the checksum of the
    protocol and the payload in front of them is refused with
    [ErrInvalidChecksum], also when everything else about it is right:
    a payload of twenty bytes, or of a public key's length for BLS. *)
Theorem decode_wrong_checksum
    (protocol : Protocol) (c : ascii) (payload cksm h_out : list byte) :
  protocolOfChar c = Some protocol ->
  protocol <> ID ->
  (length payload = 20
   \/ (protocol = BLS /\ length payload = BlsPublicKeyBytes D))%nat ->
  (length cksm = ChecksumHashLength D)%nat ->
  Checksum D (protocol :: payload) = Val h_out ->
  cksm <> h_out ->
  decode D (String "t" (String c (EncodeToString D (payload ++ cksm))))
    = Val (Undef, Some ErrInvalidChecksum).
Proof.
  intros Hp Hnid Hlen Hck Hsum Hne.
  pose proof (law_base32_length laws (payload ++ cksm)) as Hb32.
  rewrite length_app, Hck in Hb32.
  destruct (law_max_length laws) as (_ & Hmax1 & Hmax2).
  pose proof (law_checksum_length laws) as Hpos.
  assert (Hsz : (1 <= String.length (EncodeToString D (payload ++ cksm))
                 /\ 2 + String.length (EncodeToString D (payload ++ cksm))
                    <= MaxAddressStringLength D)%nat).
  { rewrite Hb32. destruct Hlen as [-> | [_ ->]]; split; try assumption;
      apply Nat.div_le_lower_bound; lia. }
  rewrite (decode_testnet_text laws) by lia.
  rewrite Hp.
  replace (Byte.eqb protocol ID) with false.
  2:{ symmetry. destruct (Byte.eqb protocol ID) eqn:E; [|reflexivity].
      apply Byte.byte_dec_bl in E. contradiction. }
  rewrite (law_base32_roundtrip laws).
  replace (length (payload ++ cksm) <? ChecksumHashLength D)%nat with false
    by (symmetry; apply Nat.ltb_ge; rewrite length_app; lia).
  cbv zeta. rewrite <- Hck.
  destruct (firstn_skipn_cut payload cksm) as (-> & ->).
  replace ((Byte.eqb protocol SECP256K1 || Byte.eqb protocol Actor)
           && negb (length payload =? 20)%nat) with false.
  2:{ symmetry. destruct Hlen as [-> | [-> _]];
        [apply andb_false_r|reflexivity]. }
  unfold ValidateChecksum. rewrite Hsum.
  replace (bytesEqual h_out cksm) with false; [reflexivity|].
  symmetry. destruct (bytesEqual h_out cksm) eqn:E; [|reflexivity].
  apply bytesEqual_eq in E. congruence.
Qed.

(** X23.  The text of the ID address of a 64-bit number is the letter of
    the test network, the digit 0 and the number in decimal; that text
    decodes to that address. *)
Theorem ID_address_text (id : N) :
  (id < uint64_modulus)%N ->
  String_ D (fst (NewIDAddress D id))
    = Val (String "t" (String "0" (strconv.FormatUint id)))
  /\ decode D (String "t" (String "0" (strconv.FormatUint id)))
     = Val (NewIDAddress D id).
Proof.
  intros Hid. split.
  - unfold NewIDAddress, newAddress, ID, String_, encode, Testnet.
    cbn [fst str]. rewrite (law_leb128_roundtrip laws Hid).
    cbn [Byte.to_N]. destruct FormatUint_protocol_digit as (-> & _).
    reflexivity.
  - pose proof (FormatUint_length id) as Hlen.
    destruct (law_max_length laws) as (Hmax & _).
    rewrite (decode_testnet_text laws) by lia.
    change (protocolOfChar "0") with (Some ID). cbv iota beta.
    change (Byte.eqb ID ID) with true. cbv iota.
    rewrite ParseUint_FormatUint by exact Hid. reflexivity.
Qed.

End AddressLaws.

Section AddressNetworks.

Import address.

Variable D : Deps.

(** X24.  For an address other than [Undef], the text for the main
    network is the text for the test network with the letter f in place
    of t, and a network that is neither gives [ErrUnknownNetwork]. *)
Theorem encode_networks (a : Address) (rest : string) (network : Network) :
  str a <> [] ->
  (encode D Testnet a = Val (String "t" rest, None)
   <-> encode D Mainnet a = Val (String "f" rest, None))
  /\ (network <> Mainnet -> network <> Testnet ->
      encode D network a
        = Val (EmptyAddressString D, Some ErrUnknownNetwork)).
Proof.
  intros Hne. destruct a as [[|p payload]]; [contradiction Hne; reflexivity|].
  clear Hne. split.
  - unfold encode, Testnet, Mainnet, TestnetPrefix, MainnetPrefix.
    cbn [str].
    destruct (Checksum D (p :: payload)) as [cksm|m];
      destruct (leb128_ToUInt64 D payload) as [id|m'];
      destruct p; cbn [append];
      split; intros E; inversion E; reflexivity.
  - intros Hm Ht. unfold encode. cbn [str].
    unfold Mainnet, Testnet in *.
    destruct network; try reflexivity; congruence.
Qed.

End AddressNetworks.

(* ================================================================= *)
(** ** The JSON methods of an address *)

Section StringTrimming.

Lemma substring_0_0 (s : string) : substring 0 0 s = EmptyString.
Proof. destruct s; reflexivity. Qed.

Lemma substring_whole (s : string) : substring 0 (String.length s) s = s.
Proof. induction s; simpl; [reflexivity|]. now f_equal. Qed.

Lemma substring_prefix_of_append (s t : string) :
  substring 0 (String.length s) (s ++ t) = s.
Proof.
  induction s; simpl; [apply substring_0_0|]. now f_equal.
Qed.

Lemma substring_suffix_of_append (s t : string) :
  substring (String.length s) (String.length t) (s ++ t) = t.
Proof. induction s; simpl; [apply substring_whole|assumption]. Qed.

(** Trimming one quote off each end of a quoted text gives the text,
    whatever the text is. *)
Lemma trim_quoted (s : string) :
  strings.TrimSuffix
    (strings.TrimPrefix (addressJSON.quote ++ s ++ addressJSON.quote)
                        addressJSON.quote)
    addressJSON.quote = s.
Proof.
  unfold strings.TrimPrefix, strings.HasPrefix, addressJSON.quote.
  cbn [append String.length Nat.leb substring].
  rewrite substring_0_0, String.eqb_refl. cbn [andb].
  replace (S (String.length (s ++ String (ascii_of_nat 34) EmptyString)) - 1)%nat
    with (String.length (s ++ String (ascii_of_nat 34) EmptyString)) by lia.
  rewrite substring_whole.
  unfold strings.TrimSuffix, strings.HasSuffix.
  rewrite string_length_append. cbn [String.length].
  replace (String.length s + 1 - 1)%nat with (String.length s) by lia.
  replace (1 <=? String.length s + 1)%nat with true
    by (symmetry; apply Nat.leb_le; lia).
  change 1%nat
    with (String.length (String (ascii_of_nat 34) EmptyString)) at 1.
  rewrite substring_suffix_of_append, String.eqb_refl. cbn [andb].
  apply substring_prefix_of_append.
Qed.

End StringTrimming.

Section AddressJSON.

Import address addressJSON.

Variable D : Deps.
Hypothesis laws : DepsLaws D.
Variable json_Marshal : string -> string * option error.

(** X25.  When [json.Marshal] puts the text of a well-formed address
    between two quotes, [UnmarshalJSON] on what [MarshalJSON] produced
    sets its receiver, whatever it held, to that address and returns no
    error. *)
Theorem JSON_roundtrip (a receiver : Address) :
  wellFormed D a = true ->
  (forall s, String_ D a = Val s ->
             json_Marshal s = ((quote ++ s ++ quote)%string, None)) ->
  exists j, MarshalJSON D json_Marshal a = Val (j, None)
            /\ UnmarshalJSON D receiver j = Val (a, None).
Proof.
  intros Hwf Hjson.
  destruct (wellFormed_text_decodes laws a Hwf) as (s & Hs & Hd).
  exists (quote ++ s ++ quote)%string. split.
  - unfold MarshalJSON. rewrite Hs, (Hjson s Hs). reflexivity.
  - unfold UnmarshalJSON. rewrite trim_quoted, Hd. reflexivity.
Qed.

End AddressJSON.

(* ================================================================= *)
(** ** The further properties at work in the small world *)

Section MoreInstances.

Import context types consensus mining.

Let goodWorker := demo.worker demo.stateTreeOK demo.mockSigner.
Let failingWorker := demo.worker demo.stateTreeBoom demo.mockSigner.
Let boom : Output :=
  {| NewBlock := None; Err := Some "boom no more state trees"%string |}.

Lemma Mine_false_sends_only_errors_witness :
  NewBlock boom = None /\ Err boom <> None.
Proof.
  apply (@Mine_false_sends_only_errors unit unit unit unit unit unit
           192 32 demo.seedOf demo.alwaysWins demo.generateFails
           failingWorker Background demo.base 2 false
           ExitStateTreeError boom).
  - reflexivity.
  - left. reflexivity.
Defined.

Lemma Mine_true_only_as_winner_witness :
  ExitWinner = ExitWinner
  /\ exists o, outCh (demo.mine goodWorker Background demo.base 2 false)
               = [o].
Proof.
  exact (@Mine_true_only_as_winner unit unit unit unit unit unit
           192 32 demo.seedOf demo.alwaysWins demo.generateFails
           goodWorker Background demo.base 2 false ExitWinner eq_refl).
Defined.



Lemma Mine_no_cancellation_no_cancel_exit_witness :
  outcome (demo.mine goodWorker Background demo.base 2 false)
    <> Returned false ExitCtxErr
  /\ outcome (demo.mine goodWorker Background demo.base 2 false)
     <> Returned false ExitCtxDone.
Proof.
  exact (@Mine_no_cancellation_no_cancel_exit unit unit unit unit unit unit
           192 32 demo.seedOf demo.alwaysWins demo.generateFails
           goodWorker Background demo.base 2 false false eq_refl).
Defined.

Lemma NewDefaultWorker_cancelled_within_block_time_witness :
  demo.mine demo2.defaultWorker demo2.cancelledLater demo.base 2 false
    = mkRun [] (Returned false ExitCtxDone).
Proof.
  refine (@NewDefaultWorker_cancelled_within_block_time
            unit unit unit unit unit unit
            192 32 demo.seedOf demo.alwaysWins demo.generateFails
            tt demo.stateTreeOK demo.weightOf tt tt tt tt
            demo.minerID demo.mockSigner 30
            demo2.cancelledLater demo.base 2 false 10 (Some tt) _
            _ eq_refl eq_refl eq_refl _).
  - unfold demo.base; discriminate.
  - unfold tickCtxErr, tickSelect. lia.
Defined.

Lemma MkFakeChildCore_weight_error_witness :
  chain.MkFakeChildCore demo.toSortedCidSet demo.base None None 0 2
    demo2.weighFails = Val (None, Some "no weight"%string).
Proof.
  exact (@MkFakeChildCore_weight_error demo.toSortedCidSet demo.base
           None None 0 2 demo2.weighFails 0 0 "no weight"%string eq_refl).
Defined.

Lemma MkFakeChildCore_block_fields_witness :
  exists blk,
    chain.MkFakeChildCore demo.toSortedCidSet demo.base None None 7 2
      demo.weigh = Val (Some blk, None)
    /\ Parents blk = demo.toSortedCidSet demo.base
    /\ Nonce blk = 7%N
    /\ Miner blk = Undef
    /\ StateRoot blk = StateRoot demo.genesis.
Proof.
  eexists. split; [reflexivity|].
  exact (@MkFakeChildCore_block_fields demo.toSortedCidSet demo.base
           None None 7 2 demo.weigh _ eq_refl).
Defined.

Lemma MkFakeChildCore_block_xor_error_witness :
  (exists blk : Block,
      (@None Block, Some "no weight"%string) = (Some blk, None))
  \/ (exists e : error,
         (@None Block, Some "no weight"%string) = (None, Some e)).
Proof.
  exact (@MkFakeChildCore_block_xor_error demo.toSortedCidSet demo.base
           None None 0 2 demo2.weighFails _ eq_refl).
Defined.

End MoreInstances.

Section MoreAddressInstances.

Import address.

Lemma NewFromBytes_Bytes_witness :
  NewFromBytes goDeps (Bytes Undef) = (Undef, None)
  /\ (leb128.FromUInt64 1234 <> [] ->
      NewFromBytes goDeps (Bytes demo.minerID) = (demo.minerID, None))
  /\ (leb128.FromUInt64 1234 = [] ->
      NewFromBytes goDeps (Bytes demo.minerID)
        = (Undef, Some ErrInvalidLength)).
Proof.
  exact (@NewFromBytes_Bytes goDeps ID (leb128.FromUInt64 1234)
           demo.minerID eq_refl).
Defined.

Lemma decode_invalid_length_witness :
  decode goDeps "t0" = Val (Undef, Some ErrInvalidLength).
Proof.
  apply decode_invalid_length.
  - discriminate.
  - discriminate.
  - left. simpl. lia.
Defined.


Lemma decode_network_letter_witness :
  decode goDeps "f01234" = decode goDeps "t01234".
Proof.
  apply decode_network_letter; discriminate.
Defined.

Lemma decode_short_payload_panics_witness :
  decode goDeps "t1aa" = Panic "slice bounds out of range".
Proof.
  apply (@decode_short_payload_panics goDeps "t" "1" "aa" SECP256K1 [x00]).
  - discriminate.
  - simpl. lia.
  - simpl. lia.
  - right. reflexivity.
  - reflexivity.
  - discriminate.
  - reflexivity.
  - simpl. lia.
Defined.

Lemma String_panics_on_unreadable_ID_witness :
  NewFromBytes goDeps [x00; x80] = (mkAddress [x00; x80], None)
  /\ String_ goDeps (mkAddress [x00; x80]) = Panic "index out of range".
Proof.
  exact (@String_panics_on_unreadable_ID goDeps x80 []
           "index out of range"%string eq_refl).
Defined.

Lemma String_injective_witness : demo.secpAddr = demo.secpAddr.
Proof.
  exact (@String_injective goDeps goDeps_laws demo.secpAddr demo.secpAddr
           eq_refl eq_refl eq_refl).
Defined.

Lemma decode_returns_wellFormed_witness :
  demo.minerID = Undef \/ wellFormed goDeps demo.minerID = true.
Proof.
  apply (@decode_returns_wellFormed goDeps goDeps_laws "t01234").
  vm_compute. reflexivity.
Defined.

Lemma decode_wrong_checksum_witness :
  decode goDeps
    (String "t" (String "1"
       (base32.EncodeToString
          (map (fun i => leb128.byteOf (N.of_nat i)) (seq 1 20)
           ++ [x00; x00; x00; x00]))))
    = Val (Undef, Some ErrInvalidChecksum).
Proof.
  apply (@decode_wrong_checksum goDeps goDeps_laws SECP256K1 "1"
           (map (fun i => leb128.byteOf (N.of_nat i)) (seq 1 20))
           [x00; x00; x00; x00]
           (blake2b.digest 4
              (SECP256K1
               :: map (fun i => leb128.byteOf (N.of_nat i)) (seq 1 20)))).
  - reflexivity.
  - discriminate.
  - left. reflexivity.
  - reflexivity.
  - reflexivity.
  - vm_compute. discriminate.
Defined.

Lemma ID_address_text_witness :
  String_ goDeps (fst (NewIDAddress goDeps 1234))
    = Val (String "t" (String "0" (strconv.FormatUint 1234)))
  /\ decode goDeps (String "t" (String "0" (strconv.FormatUint 1234)))
     = Val (NewIDAddress goDeps 1234).
Proof.
  apply (@ID_address_text goDeps goDeps_laws 1234%N).
  reflexivity.
Defined.

Lemma encode_networks_witness :
  (encode goDeps Testnet demo.minerID = Val ("t01234"%string, None)
   <-> encode goDeps Mainnet demo.minerID = Val ("f01234"%string, None))
  /\ (x07 <> Mainnet -> x07 <> Testnet ->
      encode goDeps x07 demo.minerID
        = Val ("<empty>"%string, Some ErrUnknownNetwork)).
Proof.
  apply (@encode_networks goDeps demo.minerID "01234" x07).
  discriminate.
Defined.

Lemma JSON_roundtrip_witness :
  exists j,
    addressJSON.MarshalJSON goDeps demo2.jsonQuote demo.secpAddr
      = Val (j, None)
    /\ addressJSON.UnmarshalJSON goDeps Undef j = Val (demo.secpAddr, None).
Proof.
  apply (@JSON_roundtrip goDeps goDeps_laws demo2.jsonQuote
           demo.secpAddr Undef).
  - reflexivity.
  - intros s _. reflexivity.
Defined.

End MoreAddressInstances.
